(** * Shallow embedding of the cron expression parser (package cron, parse.go)
    and of its command line tool (cmd/parse/main.go).

    Go strings are byte strings; they are modelled as [list ascii] (one
    8-bit character per byte).  Go's [uint8] values are modelled as [Z]
    in 0..255 with the wrap-around of [+=] written out as [mod 256].
    A Go function returning [(T, error)] is modelled by [result]: either a
    value, an error, or [Diverges] when the Go code loops forever. *)

From Stdlib Require Import ZArith Lia List Bool Ascii String.
Import ListNotations.
Open Scope Z_scope.

Definition gostr := list ascii.

(** Literal helper: a Rocq string literal as a Go byte string. *)
Definition str (s : string) : gostr := list_ascii_of_string s.

(** ** Errors returned by the package (the formatted values are kept). *)
Inductive error :=
| ErrInvalidExpression                 (* "invalid expression" *)
| ErrField (i : Z) (e : error)         (* fmt.Errorf("%d: %w", i, err) *)
| ErrInvalidStepRange (s : gostr)      (* "invalid step range: %v" *)
| ErrInvalidRange (s : gostr)          (* "invalid range: %v" *)
| ErrInvalidRangeStart (s : gostr)     (* "invalid range start: %v" *)
| ErrInvalidRangeEnd (s : gostr)       (* "invalid range end: %v" *)
| ErrRangeOrder (start end_ : Z)       (* "invalid range %d > %d" *)
| ErrOutsideRange (min max : Z)        (* "outside of range: %d-%d" *)
| ErrInvalidValue (s : gostr).         (* "invalid value: %v" *)

Inductive result :=
| Ok (l : list Z)
| Err (e : error)
| Diverges.

(** ** Field identifiers and the static tables *)
Definition minute : Z := 0.
Definition hour : Z := 1.
Definition dayOfMonth : Z := 2.
Definition month : Z := 3.
Definition dayOfWeek : Z := 4.
Definition command : Z := 5.

(** [validRanges[field]]; a missing key yields Go's zero value [{0, 0}]. *)
Definition validRanges (field : Z) : Z * Z :=
  if field =? minute then (0, 59)
  else if field =? hour then (0, 23)
  else if field =? dayOfMonth then (1, 31)
  else if field =? month then (1, 12)
  else if field =? dayOfWeek then (0, 7)
  else (0, 0).

Definition month_names : list (gostr * Z) :=
  [(str "jan", 1); (str "feb", 2); (str "mar", 3); (str "apr", 4);
   (str "may", 5); (str "jun", 6); (str "jul", 7); (str "aug", 8);
   (str "sep", 9); (str "oct", 10); (str "nov", 11); (str "dec", 12)].

Definition dayOfWeek_names : list (gostr * Z) :=
  [(str "mon", 1); (str "tue", 2); (str "wed", 3); (str "thu", 4);
   (str "fri", 5); (str "sat", 6); (str "sun", 7)].

(** [validNames[field]] with its comma-ok result. *)
Definition validNames (field : Z) : option (list (gostr * Z)) :=
  if field =? month then Some month_names
  else if field =? dayOfWeek then Some dayOfWeek_names
  else None.

(** ** String primitives of package strings *)

Definition gostr_eqb (a b : gostr) : bool :=
  if list_eq_dec ascii_dec a b then true else false.

(** Map lookup [m[k]] with its comma-ok result (keys are distinct). *)
Fixpoint lookup (k : gostr) (m : list (gostr * Z)) : option Z :=
  match m with
  | [] => None
  | (k', v) :: m' => if gostr_eqb k k' then Some v else lookup k m'
  end.

(** [strings.ContainsRune(s, c)] / [strings.Contains(s, string(c))]. *)
Definition contains (c : ascii) (s : gostr) : bool :=
  existsb (fun x => Ascii.eqb x c) s.

(** [strings.HasPrefix(s, p)]. *)
Fixpoint hasPrefix (s p : gostr) : bool :=
  match p, s with
  | [], _ => true
  | c :: p', x :: s' => Ascii.eqb x c && hasPrefix s' p'
  | _ :: _, [] => false
  end.

(** [strings.Split(s, string(c))]: splits at every occurrence of [c];
    [Split("", sep)] is [[""]]. *)
Fixpoint split (c : ascii) (s : gostr) : list gostr :=
  match s with
  | [] => [[]]
  | x :: r =>
      let ps := split c r in
      if Ascii.eqb x c then [] :: ps
      else match ps with
           | p :: ps' => (x :: p) :: ps'
           | [] => [[x]]
           end
  end.

(** Cut [s] at the first occurrence of [c] ([strings.Index] then slicing). *)
Fixpoint cut (c : ascii) (s : gostr) : option (gostr * gostr) :=
  match s with
  | [] => None
  | x :: r =>
      if Ascii.eqb x c then Some ([], r)
      else match cut c r with
           | Some (pre, post) => Some (x :: pre, post)
           | None => None
           end
  end.

(** [strings.SplitN(s, string(c), n)] for [n > 0]: at most [n] pieces, the
    last one holding the rest of [s] verbatim. *)
Fixpoint splitN (c : ascii) (n : nat) (s : gostr) : list gostr :=
  match n with
  | O => []
  | S O => [s]
  | S n' =>
      match cut c s with
      | None => [s]
      | Some (pre, post) => pre :: splitN c n' post
      end
  end.

(** [strings.ToLower] on the ASCII letters.  Go's Unicode case mapping
    differs only on non-ASCII input, whose lower case never equals one of
    the three-letter ASCII names of [validNames]. *)
Definition lower_ascii (c : ascii) : ascii :=
  let n := nat_of_ascii c in
  if (65 <=? n)%nat && (n <=? 90)%nat then ascii_of_nat (n + 32) else c.

Definition toLower (s : gostr) : gostr := map lower_ascii s.

(** ** [atoi]: [strconv.ParseInt(s, 10, 8)] followed by [uint8(x)].
    ParseInt accepts an optional sign and at least one decimal digit, and
    fails when the value is outside the int8 range [-128, 127]; on success
    the value is converted to uint8 (modulo 256).  [None] is a non-nil
    error. *)
Definition is_digit (c : ascii) : bool :=
  let n := nat_of_ascii c in (48 <=? n)%nat && (n <=? 57)%nat.

Definition digit_value (c : ascii) : Z := Z.of_nat (nat_of_ascii c) - 48.

Definition digits_value (ds : gostr) : Z :=
  fold_left (fun acc d => acc * 10 + digit_value d) ds 0.

Definition parseUint_dec (ds : gostr) : option Z :=
  match ds with
  | [] => None
  | _ => if forallb is_digit ds then Some (digits_value ds) else None
  end.

Definition parseInt8 (s : gostr) : option Z :=
  let '(neg, ds) :=
    match s with
    | c :: r => if Ascii.eqb c "-"%char then (true, r)
                else if Ascii.eqb c "+"%char then (false, r)
                else (false, s)
    | [] => (false, s)
    end in
  match parseUint_dec ds with
  | None => None
  | Some un =>
      let v := if neg then - un else un in
      if (-128 <=? v) && (v <=? 127) then Some v else None
  end.

Definition atoi (s : gostr) : option Z :=
  match parseInt8 s with
  | Some x => Some (x mod 256)
  | None => None
  end.

(** ** [stepRange]

    [for x := start; x <= end; x += step { ret = append(ret, x) }] over
    uint8.  [stepRange_loop fuel] runs at most [fuel] iterations and gives
    [None] when the loop has not exited yet.  The loop's control state is
    the single uint8 [x], which is back at [start] after 256 iterations, so
    256 iterations decide the loop: [None] at 256 means the Go loop never
    exits (lemmas [stepRange_loop_diverges] and [stepRange_loop_complete]). *)
Fixpoint stepRange_loop (fuel : nat) (x end_ step : Z) : option (list Z) :=
  match fuel with
  | O => None
  | S f =>
      if x <=? end_ then
        match stepRange_loop f ((x + step) mod 256) end_ step with
        | Some r => Some (x :: r)
        | None => None
        end
      else Some []
  end.

Definition stepRange (start end_ step : Z) : option (list Z) :=
  stepRange_loop 256 start end_ step.

Definition of_loop (o : option (list Z)) : result :=
  match o with
  | Some l => Ok l
  | None => Diverges
  end.

(** ** The field expander *)

Definition expandAny (field min max : Z) : result :=
  let min := if field =? dayOfWeek then (min + 1) mod 256 (* avoid duplicating sunday *)
             else min in
  of_loop (stepRange min max 1).

Definition expandAnyStepRange (s : gostr) (min max : Z) : result :=
  match atoi (skipn 2 s) (* trim "*/" *) with
  | None => Err (ErrInvalidStepRange s)
  | Some step => of_loop (stepRange min max step)
  end.

(** The range bounds once [start], [end] and [step] are known. *)
Definition expandRange_checked (start end_ step min max : Z) : result :=
  if start >? end_ then Err (ErrRangeOrder start end_)
  else if ((min >? start) || (start >? max)) || ((min >? end_) || (end_ >? max))
  then Err (ErrOutsideRange min max)
  else of_loop (stepRange start end_ step).

(** [endStr] and [step] parsed: [atoi(endStr)] and the checks. *)
Definition expandRange_end (start : Z) (endStr : gostr) (step min max : Z) : result :=
  match atoi endStr with
  | None => Err (ErrInvalidRangeEnd endStr)
  | Some end_ => expandRange_checked start end_ step min max
  end.

Definition expandRange (s : gostr) (min max : Z) : result :=
  match split "-"%char s with
  | [p0; p1] =>
      match atoi p0 with
      | None => Err (ErrInvalidRangeStart p0)
      | Some start =>
          if contains "/"%char p1 then (* range with step *)
            match split "/"%char p1 with
            | [e; st] =>
                match atoi st with
                | None => Err (ErrInvalidStepRange s)
                | Some step => expandRange_end start e step min max
                end
            | _ => Err (ErrInvalidStepRange s)
            end
          else expandRange_end start p1 1 min max
      end
  | _ => Err (ErrInvalidRange s)
  end.

(** [names, ok := validNames[field]; if ok { x, ok := names[ToLower(s)] }]. *)
Definition lookupName (s : gostr) (field : Z) : option Z :=
  match validNames field with
  | Some names => lookup (toLower s) names
  | None => None
  end.

Definition expandSingle (s : gostr) (field min max : Z) : result :=
  match lookupName s field with
  | Some x => Ok [x]
  | None =>
      match atoi s with
      | Some x =>
          if (min >? x) || (x >? max) then Err (ErrOutsideRange min max)
          else Ok [x]
      | None => Err (ErrInvalidValue s)
      end
  end.

(** The [switch] of [expand] (everything but the list case). *)
Definition expand_switch (s : gostr) (field min max : Z) : result :=
  if gostr_eqb s (str "*") then expandAny field min max
  else if hasPrefix s (str "*/") then expandAnyStepRange s min max
  else if contains "-"%char s then expandRange s min max
  else expandSingle s field min max.

(** The list loop of [expand]: [for _, ss := range parts { exp, err :=
    expand(ss, ...); if err != nil { return nil, err }; ret = append(ret,
    exp...) }; return ret, nil]. *)
Fixpoint expand_parts (ex : gostr -> result) (ret : list Z) (parts : list gostr)
  : result :=
  match parts with
  | [] => Ok ret
  | ss :: rest =>
      match ex ss with
      | Ok exp => expand_parts ex (ret ++ exp) rest
      | Err e => Err e
      | Diverges => Diverges
      end
  end.

(** [expand] with its recursive call unfolded [depth] times.  The pieces of
    [strings.Split(s, ",")] contain no comma, so the recursive call on a
    piece never takes the list branch again and depth 1 is the Go function
    (lemma [expand_eq] below states Go's recursive equation). *)
Fixpoint expand_depth (depth : nat) (s : gostr) (field min max : Z) : result :=
  match depth with
  | O => expand_switch s field min max
  | S d =>
      let parts := split ","%char s in
      if (1 <? List.length parts)%nat (* list *)
      then expand_parts (fun ss => expand_depth d ss field min max) [] parts
      else expand_switch s field min max
  end.

Definition expand (s : gostr) (field min max : Z) : result :=
  expand_depth 1 s field min max.

(** ** [Parse] *)

Record Expression := mkExpression {
  Minute : list Z;
  Hour : list Z;
  DayOfMonth : list Z;
  Month : list Z;
  DayOfWeek : list Z;
  Command : gostr }.

(** [Expression{}]. *)
Definition Expression_zero : Expression := mkExpression [] [] [] [] [] [].

(** [(Expression, error)], or a parse that never returns. *)
Inductive parse_result :=
| PRet (e : Expression) (err : option error)
| PDiverges.

Definition build (expanded : list (list Z)) (parts : list gostr) : Expression :=
  {| Minute := nth (Z.to_nat minute) expanded [];
     Hour := nth (Z.to_nat hour) expanded [];
     DayOfMonth := nth (Z.to_nat dayOfMonth) expanded [];
     Month := nth (Z.to_nat month) expanded [];
     DayOfWeek := nth (Z.to_nat dayOfWeek) expanded [];
     Command := nth (Z.to_nat command) parts [] |}.

(** [for i := uint8(0); i < 5; i++ { ... }] with [k] iterations left. *)
Fixpoint parse_loop (k : nat) (i : Z) (parts : list gostr) (expanded : list (list Z))
  : parse_result :=
  match k with
  | O => PRet (build expanded parts) None
  | S k' =>
      let '(min, max) := validRanges i in
      match expand (nth (Z.to_nat i) parts []) i min max with
      | Ok v => parse_loop k' (i + 1) parts (expanded ++ [v])
      | Err e => PRet Expression_zero (Some (ErrField i e))
      | Diverges => PDiverges
      end
  end.

Definition Parse (s : gostr) : parse_result :=
  let parts := splitN " "%char 6 s in
  if negb (List.length parts =? 6)%nat then PRet Expression_zero (Some ErrInvalidExpression)
  else parse_loop 5 0 parts [].

(** ** Spec-side reading of "A, A+N, A+2N, ... while <= B"
    (unbounded integers, no wrap-around); compared with [stepRange]. *)
Fixpoint upto (k : nat) (a b n : Z) : list Z :=
  match k with
  | O => []
  | S k' => if a <=? b then a :: upto k' (a + n) b n else []
  end.

Definition spec_steps (a b n : Z) : list Z := upto (Z.to_nat (b - a + 1)) a b n.

(** [strings.Join(ps, string(c))]: pieces joined by a separator (the
    inverse of [split] on pieces without the separator). *)
Fixpoint join (c : ascii) (ps : list gostr) : gostr :=
  match ps with
  | [] => []
  | [p] => p
  | p :: ps' => p ++ c :: join c ps'
  end.

(** ** [Expression.String] *)

(** [fmt] verb [%d] on a uint8 (0..255): decimal digits without leading
    zeros; a uint8 has at most three digits. *)
Definition dec_digit (d : Z) : ascii := ascii_of_nat (48 + Z.to_nat d).

Fixpoint fmt_digits (fuel : nat) (x : Z) : gostr :=
  match fuel with
  | O => []
  | S f => if x <? 10 then [dec_digit x] else fmt_digits f (x / 10) ++ [dec_digit (x mod 10)]
  end.

Definition fmt_d (x : Z) : gostr := fmt_digits 3 x.

(** The [join] closure of [String]: [for i, x := range xs { if i > 0
    { Fprintf(&b, " %d", x) } else { Fprintf(&b, "%d", x) } }]. *)
Fixpoint join_from (i : nat) (xs : list Z) : gostr :=
  match xs with
  | [] => []
  | x :: xs' =>
      (if (0 <? i)%nat then " "%char :: fmt_d x else fmt_d x) ++ join_from (S i) xs'
  end.

Definition join_values (xs : list Z) : gostr := join_from 0 xs.

(** Bytes that [text/tabwriter] treats specially: cell terminators '\t'
    and '\v', line ends '\n' and '\f', and the escape byte 0xff. *)
Definition tw_special (c : ascii) : bool :=
  let n := nat_of_ascii c in
  (n =? 9)%nat || (n =? 10)%nat || (n =? 11)%nat || (n =? 12)%nat || (n =? 255)%nat.

(** [tabwriter.NewWriter(&b, 0, 8, 0, '\t', 0)] followed by [Flush], for
    lines written as [cell + "\t" + text + "\n"] with ASCII cells.  All
    lines then form one column block; its width is the widest cell
    (minwidth 0, padding 0), rounded up to a multiple of the tab width 8,
    and each cell is padded with [(cellw - width(cell) + 7) / 8] tabs
    (padchar '\t'); the text, the last cell of its line, is copied as is.
    A line whose cell or text holds a byte of [tw_special] would change the
    cell structure; that case is not modelled ([None]). *)
Definition tabwriter_lines (rows : list (gostr * gostr)) : option gostr :=
  if existsb (fun r => existsb tw_special (fst r) || existsb tw_special (snd r)) rows
  then None
  else
    let width := fold_right Nat.max 0%nat (map (fun r => List.length (fst r)) rows) in
    let cellw := ((width + 7) / 8 * 8)%nat in
    Some (List.concat (map (fun r =>
            fst r ++ repeat "009"%char ((cellw - List.length (fst r) + 7) / 8)
                  ++ snd r ++ ["010"%char]) rows)).

(** [func (e Expression) String() string]. *)
Definition Expression_String (e : Expression) : option gostr :=
  tabwriter_lines
    [(str "minute", join_values (Minute e));
     (str "hour", join_values (Hour e));
     (str "day of month", join_values (DayOfMonth e));
     (str "month", join_values (Month e));
     (str "day of week", join_values (DayOfWeek e));
     (str "command", Command e)].

(** [err.Error()] for the errors of the package ([%d] of uint8 values,
    [%v] of strings verbatim, [%w] the wrapped error's text). *)
Fixpoint Error (e : error) : gostr :=
  match e with
  | ErrInvalidExpression => str "invalid expression"
  | ErrField i e' => fmt_d i ++ str ": " ++ Error e'
  | ErrInvalidStepRange s => str "invalid step range: " ++ s
  | ErrInvalidRange s => str "invalid range: " ++ s
  | ErrInvalidRangeStart s => str "invalid range start: " ++ s
  | ErrInvalidRangeEnd s => str "invalid range end: " ++ s
  | ErrRangeOrder a b => str "invalid range " ++ fmt_d a ++ str " > " ++ fmt_d b
  | ErrOutsideRange a b => str "outside of range: " ++ fmt_d a ++ "-"%char :: fmt_d b
  | ErrInvalidValue s => str "invalid value: " ++ s
  end.

(** ** [main] of cmd/parse: what it writes to stdout and stderr and its
    exit status. *)
Inductive main_result :=
| MainExit (stdout stderr : gostr) (status : Z)
| MainDiverges
| MainNotModelled.  (* the output goes through an unmodelled tabwriter case *)

(** [exp, err := cron.Parse(strings.Join(os.Args[1:], " ")); if err != nil
    { Fprintf(os.Stderr, "%v\n", err); os.Exit(1) }; fmt.Print(exp)]. *)
Definition main (args : list gostr) : main_result :=
  match Parse (join " "%char args) with
  | PRet _ (Some err) => MainExit [] (Error err ++ ["010"%char]) 1
  | PRet exp None =>
      match Expression_String exp with
      | Some out => MainExit out [] 0
      | None => MainNotModelled
      end
  | PDiverges => MainDiverges
  end.

(** ** Predicates used to state properties *)

(** The text after the first '/' of a piece, the step text of [*/N] and
    [A-B/N], has no minus sign (a negative step, accepted by [atoi] and
    cast to uint8, makes the uint8 loop counter wrap). *)
Definition nonnegative_step (p : gostr) : bool :=
  match cut "/"%char p with
  | Some (_, step) => negb (contains "-"%char step)
  | None => true
  end.

Definition no_negative_step (s : gostr) : bool :=
  forallb nonnegative_step (split ","%char s).

(** Some iterate [x + k * step] (mod 256), [k < fuel], lies in 128..255. *)
Fixpoint exits_within (fuel : nat) (x step : Z) : bool :=
  match fuel with
  | O => false
  | S f => if 127 <? x then true else exits_within f ((x + step) mod 256) step
  end.

(** * Lemmas about the model *)

(** ** The uint8 loop of [stepRange] *)
Section StepRange.

Variables end_ step : Z.

Lemma stepRange_loop_None_iff : forall n x, 0 <= x < 256 ->
  stepRange_loop n x end_ step = None <->
  (forall k, (k < n)%nat -> (x + Z.of_nat k * step) mod 256 <= end_).
Proof.
  induction n as [|n IH]; intros x Hx; simpl.
  - split; [intros _ k Hk; lia | reflexivity].
  - destruct (Z.leb_spec x end_) as [Hle|Hgt].
    + assert (Hx' : 0 <= (x + step) mod 256 < 256) by (apply Z.mod_pos_bound; lia).
      specialize (IH _ Hx').
      split.
      * intros H k Hk.
        destruct k as [|k].
        -- rewrite Z.add_0_r, Z.mod_small by lia. exact Hle.
        -- destruct (stepRange_loop n ((x + step) mod 256) end_ step) eqn:E;
             [discriminate|].
           assert (Hk' : (k < n)%nat) by lia.
           pose proof (proj1 IH eq_refl k Hk') as Hm.
           rewrite Z.add_mod_idemp_l in Hm by lia.
           replace (x + Z.of_nat (S k) * step) with (x + step + Z.of_nat k * step) by lia.
           exact Hm.
      * intros H.
        assert (Hr : stepRange_loop n ((x + step) mod 256) end_ step = None).
        { apply IH. intros k Hk.
          rewrite Z.add_mod_idemp_l by lia.
          replace (x + step + Z.of_nat k * step) with (x + Z.of_nat (S k) * step) by lia.
          apply H. lia. }
        rewrite Hr. reflexivity.
    + split; [discriminate|].
      intros H. specialize (H 0%nat ltac:(lia)).
      rewrite Z.add_0_r, Z.mod_small in H by lia. lia.
Qed.

(** If the loop has not exited after 256 iterations it never exits. *)
Lemma stepRange_loop_diverges : forall x, 0 <= x < 256 ->
  stepRange_loop 256 x end_ step = None ->
  forall n, stepRange_loop n x end_ step = None.
Proof.
  intros x Hx H256 n.
  apply stepRange_loop_None_iff; [exact Hx|].
  intros k _.
  pose proof (proj1 (stepRange_loop_None_iff 256 x Hx) H256) as H.
  set (K := Z.of_nat k).
  assert (HK : 0 <= K mod 256 < 256) by (apply Z.mod_pos_bound; lia).
  specialize (H (Z.to_nat (K mod 256)) ltac:(lia)).
  rewrite Z2Nat.id in H by lia.
  replace (x + K * step) with ((x + K mod 256 * step) + (K / 256 * step) * 256)
    by (pose proof (Z.div_mod K 256 ltac:(lia)); nia).
  rewrite Z.mod_add by lia. exact H.
Qed.

Lemma stepRange_loop_mono : forall n m x l,
  stepRange_loop n x end_ step = Some l ->
  stepRange_loop (n + m) x end_ step = Some l.
Proof.
  induction n as [|n IH]; intros m x l H; simpl in *; [discriminate|].
  destruct (x <=? end_); [|exact H].
  destruct (stepRange_loop n ((x + step) mod 256) end_ step) eqn:E; [|discriminate].
  rewrite (IH m _ _ E). exact H.
Qed.

(** Any terminating run of the Go loop is the 256-iteration run: so
    [stepRange] is exactly the Go function, results and divergence. *)
Lemma stepRange_loop_complete : forall n x l, 0 <= x < 256 ->
  stepRange_loop n x end_ step = Some l -> stepRange x end_ step = Some l.
Proof.
  intros n x l Hx H. unfold stepRange.
  destruct (Nat.le_gt_cases n 256) as [Hle|Hgt].
  - replace 256%nat with (n + (256 - n))%nat by lia.
    apply stepRange_loop_mono. exact H.
  - destruct (stepRange_loop 256 x end_ step) as [l'|] eqn:E.
    + replace n with (256 + (n - 256))%nat in H by lia.
      rewrite (stepRange_loop_mono _ _ _ _ E) in H. exact H.
    + rewrite (stepRange_loop_diverges x Hx E n) in H. discriminate.
Qed.

(** Without wrap-around the loop is the spec's sequence. *)
Lemma stepRange_loop_upto : forall k fuel a b,
  end_ = b -> 0 <= a -> 1 <= step -> b + step < 256 ->
  (Z.to_nat (b - a + 1) <= k)%nat -> (k < fuel)%nat ->
  stepRange_loop fuel a end_ step = Some (upto k a b step).
Proof.
  induction k as [|k IH]; intros fuel a b Hb Ha Hs Hw Hk Hf; subst end_.
  - destruct fuel as [|f]; [lia|]. simpl.
    replace (a <=? b) with false by (symmetry; apply Z.leb_gt; lia). reflexivity.
  - destruct fuel as [|f]; [lia|]. simpl.
    destruct (Z.leb_spec a b) as [Hab|Hab]; [|reflexivity].
    rewrite Z.mod_small by lia.
    rewrite (IH f (a + step) b) by lia. reflexivity.
Qed.

End StepRange.

Lemma stepRange_spec_steps : forall a b n,
  0 <= a -> 0 <= b -> 1 <= n -> b + n < 256 ->
  stepRange a b n = Some (spec_steps a b n).
Proof.
  intros a b n Ha Hb Hn Hw. unfold stepRange, spec_steps.
  apply stepRange_loop_upto; lia.
Qed.

(** ** Strings *)

Lemma contains_In : forall c s, contains c s = true <-> In c s.
Proof.
  intros c s. unfold contains. rewrite existsb_exists. split.
  - intros [x [Hx He]]. apply Ascii.eqb_eq in He. subst. exact Hx.
  - intros H. exists c. split; [exact H | apply Ascii.eqb_refl].
Qed.

Lemma contains_false : forall c s, ~ In c s -> contains c s = false.
Proof.
  intros c s H. destruct (contains c s) eqn:E; [|reflexivity].
  apply contains_In in E. contradiction.
Qed.

Lemma split_no_sep : forall c s, ~ In c s -> split c s = [s].
Proof.
  induction s as [|x r IH]; intros H; simpl; [reflexivity|].
  destruct (Ascii.eqb_spec x c) as [E|E].
  - subst. exfalso. apply H. left. reflexivity.
  - rewrite IH by (intros Hin; apply H; right; exact Hin). reflexivity.
Qed.

Lemma split_nonempty : forall c s, exists p ps, split c s = p :: ps.
Proof.
  induction s as [|x r IH]; simpl; [eauto|].
  destruct IH as [p [ps E]]. rewrite E.
  destruct (Ascii.eqb x c); eauto.
Qed.

(** A separator-free prefix becomes part of the first piece. *)
Lemma split_app_prefix : forall c x y, ~ In c x ->
  split c (x ++ y) =
  match split c y with
  | p :: ps => (x ++ p) :: ps
  | [] => [x]
  end.
Proof.
  induction x as [|a x IH]; intros y H; simpl.
  - destruct (split_nonempty c y) as [p [ps Ep]]. rewrite Ep. reflexivity.
  - destruct (Ascii.eqb_spec a c) as [E|E].
    + subst. exfalso. apply H. left. reflexivity.
    + rewrite IH by (intros Hin; apply H; right; exact Hin).
      destruct (split_nonempty c y) as [p [ps Ep]]. rewrite Ep. reflexivity.
Qed.

Lemma split_app_sep : forall c x y, ~ In c x ->
  split c (x ++ c :: y) = x :: split c y.
Proof.
  intros c x y H. rewrite split_app_prefix by exact H. simpl.
  rewrite Ascii.eqb_refl, app_nil_r. reflexivity.
Qed.

Lemma split_pieces_no_sep : forall c s p, In p (split c s) -> ~ In c p.
Proof.
  induction s as [|x r IH]; intros p Hp; simpl in Hp.
  - destruct Hp as [<-|[]]. intros [].
  - destruct (Ascii.eqb_spec x c) as [E|E].
    + destruct Hp as [<-|Hp]; [intros []|exact (IH p Hp)].
    + destruct (split_nonempty c r) as [q [qs Eq]]. rewrite Eq in *.
      destruct Hp as [<-|Hp].
      * intros [Hc|Hc]; [congruence|]. apply (IH q); [left; reflexivity | exact Hc].
      * apply IH. right. exact Hp.
Qed.

Lemma split_length_In : forall c s, In c s -> (1 < List.length (split c s))%nat.
Proof.
  induction s as [|x r IH]; intros H; simpl in H; [contradiction|].
  simpl. destruct (split_nonempty c r) as [q [qs Eq]]. rewrite Eq.
  destruct (Ascii.eqb_spec x c) as [E|E]; simpl; [lia|].
  destruct H as [H|H]; [congruence|].
  specialize (IH H). rewrite Eq in IH. simpl in IH. exact IH.
Qed.

Lemma split_join : forall c ps, ps <> [] -> Forall (fun p => ~ In c p) ps ->
  split c (join c ps) = ps.
Proof.
  induction ps as [|p ps IH]; intros Hne H; [congruence|].
  inversion H as [|? ? Hp Hps]; subst.
  destruct ps as [|q qs].
  - simpl. apply split_no_sep. exact Hp.
  - change (join c (p :: q :: qs)) with (p ++ c :: join c (q :: qs)).
    rewrite split_app_sep by exact Hp.
    rewrite IH by (congruence || exact Hps). reflexivity.
Qed.

Lemma cut_app_sep : forall c x y, ~ In c x -> cut c (x ++ c :: y) = Some (x, y).
Proof.
  induction x as [|a x IH]; intros y H; simpl.
  - rewrite Ascii.eqb_refl. reflexivity.
  - destruct (Ascii.eqb_spec a c) as [E|E].
    + subst. exfalso. apply H. left. reflexivity.
    + rewrite IH by (intros Hin; apply H; right; exact Hin). reflexivity.
Qed.

Lemma cut_Some : forall c s pre post, cut c s = Some (pre, post) ->
  s = pre ++ c :: post /\ ~ In c pre.
Proof.
  induction s as [|x r IH]; intros pre post H; simpl in H; [discriminate|].
  destruct (Ascii.eqb_spec x c) as [E|E].
  - inversion H; subst. split; [reflexivity | intros []].
  - destruct (cut c r) as [[pr po]|] eqn:Ec; [|discriminate].
    inversion H; subst. destruct (IH _ _ eq_refl) as [-> Hn].
    split; [reflexivity|]. intros [Hc|Hc]; [congruence | contradiction].
Qed.

(** ** Characters *)

Definition numeral_char (c : ascii) : bool :=
  is_digit c || Ascii.eqb c "-"%char || Ascii.eqb c "+"%char.

Definition is_lower (c : ascii) : bool :=
  let n := nat_of_ascii c in (97 <=? n)%nat && (n <=? 122)%nat.

Definition is_letter (c : ascii) : bool :=
  let n := nat_of_ascii c in
  ((65 <=? n)%nat && (n <=? 90)%nat) || is_lower c.

Lemma bool_pred_neq : forall (P : ascii -> bool) c x,
  P c = true -> P x = false -> c <> x.
Proof. intros P c x Hc Hx ->. congruence. Qed.

Lemma forallb_not_In : forall (P : ascii -> bool) s x,
  forallb P s = true -> P x = false -> ~ In x s.
Proof.
  intros P s x H Hx Hin. rewrite forallb_forall in H.
  specialize (H x Hin). congruence.
Qed.

Lemma lower_ascii_letter : forall c, is_lower (lower_ascii c) = true -> is_letter c = true.
Proof.
  intros c. unfold lower_ascii, is_letter.
  destruct ((65 <=? nat_of_ascii c)%nat && (nat_of_ascii c <=? 90)%nat) eqn:E.
  - intros _. reflexivity.
  - intros H. rewrite H, orb_true_r. reflexivity.
Qed.

(** ** [atoi] *)

Lemma digits_value_nonneg : forall ds acc, 0 <= acc -> forallb is_digit ds = true ->
  0 <= fold_left (fun acc d => acc * 10 + digit_value d) ds acc.
Proof.
  induction ds as [|d ds IH]; intros acc Hacc H; simpl in *; [exact Hacc|].
  apply andb_prop in H as [Hd Hds]. apply IH; [|exact Hds].
  unfold is_digit in Hd. apply andb_prop in Hd as [Hd _].
  apply Nat.leb_le in Hd. unfold digit_value. lia.
Qed.

Lemma parseUint_dec_Some : forall ds un, parseUint_dec ds = Some un ->
  ds <> [] /\ forallb is_digit ds = true /\ 0 <= un.
Proof.
  intros ds un H. unfold parseUint_dec in H.
  destruct ds as [|d ds']; [discriminate|].
  destruct (forallb is_digit (d :: ds')) eqn:E; [|discriminate].
  inversion H; subst. split; [congruence|]. split; [reflexivity|].
  apply digits_value_nonneg; [lia | exact E].
Qed.

Lemma forallb_digit_numeral : forall s, forallb is_digit s = true ->
  forallb numeral_char s = true.
Proof.
  intros s H. rewrite forallb_forall in *. intros c Hc.
  unfold numeral_char. rewrite (H c Hc). reflexivity.
Qed.

(** Text accepted by [atoi] is a non-empty numeral: sign and digits. *)
Lemma atoi_numeral : forall s v, atoi s = Some v ->
  s <> [] /\ forallb numeral_char s = true.
Proof.
  intros s v H. unfold atoi, parseInt8 in H.
  destruct s as [|c r]; [simpl in H; discriminate|].
  split; [congruence|].
  destruct (Ascii.eqb_spec c "-"%char) as [E1|E1];
  [|destruct (Ascii.eqb_spec c "+"%char) as [E2|E2]].
  - destruct (parseUint_dec r) as [un|] eqn:Ep; [|discriminate].
    destruct (parseUint_dec_Some _ _ Ep) as [_ [Hd _]]. subst.
    simpl. apply forallb_digit_numeral. exact Hd.
  - destruct (parseUint_dec r) as [un|] eqn:Ep; [|discriminate].
    destruct (parseUint_dec_Some _ _ Ep) as [_ [Hd _]]. subst.
    simpl. apply forallb_digit_numeral. exact Hd.
  - destruct (parseUint_dec (c :: r)) as [un|] eqn:Ep; [|discriminate].
    destruct (parseUint_dec_Some _ _ Ep) as [_ [Hd _]].
    apply forallb_digit_numeral. exact Hd.
Qed.

(** Without a minus sign [atoi] yields a value in 0..127. *)
Lemma atoi_unsigned : forall s v, atoi s = Some v -> ~ In "-"%char s -> 0 <= v <= 127.
Proof.
  intros s v H Hm. unfold atoi, parseInt8 in H.
  destruct s as [|c r]; [simpl in H; discriminate|].
  destruct (Ascii.eqb_spec c "-"%char) as [E1|E1].
  { subst. exfalso. apply Hm. left. reflexivity. }
  destruct (Ascii.eqb c "+"%char);
    [destruct (parseUint_dec r) as [un|] eqn:Ep | destruct (parseUint_dec (c :: r)) as [un|] eqn:Ep];
    try discriminate;
    destruct (parseUint_dec_Some _ _ Ep) as [_ [_ Hun]];
    destruct ((-128 <=? un) && (un <=? 127)) eqn:Eb; try discriminate;
    apply andb_prop in Eb as [_ Eb]; apply Z.leb_le in Eb;
    inversion H; subst; rewrite Z.mod_small by lia; lia.
Qed.

(** ** Names *)

Definition all_names : list (gostr * Z) := month_names ++ dayOfWeek_names.

Lemma names_lower : forall name v, In (name, v) all_names ->
  name <> [] /\ forallb is_lower name = true.
Proof.
  intros name v H.
  repeat (destruct H as [H|H]; [inversion H; subst; split; [discriminate | reflexivity]|]).
  destruct H.
Qed.

(** Text whose lower case is a name consists of letters. *)
Lemma toLower_name_letters : forall m name v, In (name, v) all_names ->
  toLower m = name -> m <> [] /\ forallb is_letter m = true.
Proof.
  intros m name v Hin Hl. destruct (names_lower _ _ Hin) as [Hne Hlow]. subst name.
  split.
  - destruct m; [contradiction | discriminate].
  - apply forallb_forall. intros c Hc. apply lower_ascii_letter.
    rewrite forallb_forall in Hlow. apply Hlow. unfold toLower. apply in_map. exact Hc.
Qed.

(** ** [expand] *)

Lemma expand_parts_ext : forall ex1 ex2 ret parts,
  (forall p, In p parts -> ex1 p = ex2 p) ->
  expand_parts ex1 ret parts = expand_parts ex2 ret parts.
Proof.
  intros ex1 ex2 ret parts. revert ret.
  induction parts as [|p ps IH]; intros ret H; simpl; [reflexivity|].
  rewrite (H p (or_introl eq_refl)).
  destruct (ex2 p); [|reflexivity|reflexivity].
  apply IH. intros q Hq. apply H. right. exact Hq.
Qed.

Lemma expand_no_comma : forall s field min max, ~ In ","%char s ->
  expand s field min max = expand_switch s field min max.
Proof.
  intros s field min max H. unfold expand, expand_depth.
  rewrite (split_no_sep _ _ H). reflexivity.
Qed.

(** Go's recursive equation of [expand]. *)
Lemma expand_eq : forall s field min max,
  expand s field min max =
  let parts := split ","%char s in
  if (1 <? List.length parts)%nat
  then expand_parts (fun ss => expand ss field min max) [] parts
  else expand_switch s field min max.
Proof.
  intros s field min max. unfold expand at 1. simpl expand_depth. cbv zeta.
  destruct (1 <? List.length (split ","%char s))%nat; [|reflexivity].
  apply expand_parts_ext. intros p Hp.
  rewrite expand_no_comma by exact (split_pieces_no_sep _ _ _ Hp). reflexivity.
Qed.

Lemma expand_parts_Forall2 : forall ex parts ls ret,
  Forall2 (fun p l => ex p = Ok l) parts ls ->
  expand_parts ex ret parts = Ok (ret ++ List.concat ls).
Proof.
  intros ex parts ls ret H. revert ret.
  induction H as [|p l ps ls' Hp Hps IH]; intros ret; simpl.
  - rewrite app_nil_r. reflexivity.
  - rewrite Hp, IH, app_assoc. reflexivity.
Qed.

(** [expandRange] on [a-b] and [a-b/n] with unsigned numerals. *)
Lemma expandRange_numerals : forall a b A B min max,
  atoi a = Some A -> atoi b = Some B -> ~ In "-"%char a -> ~ In "-"%char b ->
  expandRange (a ++ "-"%char :: b) min max = expandRange_checked A B 1 min max
  /\ (forall n N, atoi n = Some N -> ~ In "-"%char n ->
      expandRange (a ++ "-"%char :: b ++ "/"%char :: n) min max
      = expandRange_checked A B N min max).
Proof.
  intros a b A B min max Ha Hb Ham Hbm.
  destruct (atoi_numeral _ _ Hb) as [_ Hnb].
  split.
  - unfold expandRange. rewrite split_app_sep by exact Ham.
    rewrite (split_no_sep _ _ Hbm). rewrite Ha.
    rewrite contains_false by (apply (forallb_not_In numeral_char); [exact Hnb | reflexivity]).
    unfold expandRange_end. rewrite Hb. reflexivity.
  - intros n N Hn Hnm.
    destruct (atoi_numeral _ _ Hn) as [_ Hnn].
    unfold expandRange. rewrite split_app_sep by exact Ham.
    rewrite (split_no_sep "-"%char (b ++ "/"%char :: n)).
    2:{ intros Hin. apply in_app_or in Hin as [Hin|[Hin|Hin]];
        [exact (Hbm Hin) | discriminate | exact (Hnm Hin)]. }
    rewrite Ha.
    replace (contains "/"%char (b ++ "/"%char :: n)) with true
      by (symmetry; apply contains_In; apply in_or_app; right; left; reflexivity).
    rewrite split_app_sep
      by (apply (forallb_not_In numeral_char); [exact Hnb | reflexivity]).
    rewrite (split_no_sep "/"%char n)
      by (apply (forallb_not_In numeral_char); [exact Hnn | reflexivity]).
    rewrite Hn. unfold expandRange_end. rewrite Hb. reflexivity.
Qed.

Lemma contains_false_iff : forall c s, contains c s = false <-> ~ In c s.
Proof.
  intros c s. split.
  - intros H Hin. apply contains_In in Hin. congruence.
  - apply contains_false.
Qed.

(** [a-b] / [a-b/n] with unsigned numerals goes to [expandRange] and then
    to the checks with the parsed values. *)
Lemma expand_range_numerals : forall a b suffix A B N field min max,
  atoi a = Some A -> atoi b = Some B ->
  contains "-"%char a = false -> contains "-"%char b = false ->
  (suffix = [] /\ N = 1 \/
   exists n, suffix = "/"%char :: n /\ atoi n = Some N /\ contains "-"%char n = false) ->
  expand (a ++ "-"%char :: b ++ suffix) field min max = expandRange_checked A B N min max.
Proof.
  intros a b suffix A B N field min max Ha Hb Ham Hbm Hsuf.
  apply contains_false_iff in Ham, Hbm.
  destruct (atoi_numeral _ _ Ha) as [Hane Hna].
  destruct (atoi_numeral _ _ Hb) as [_ Hnb].
  assert (Hsc : ~ In ","%char suffix /\ ~ In "*"%char suffix).
  { destruct Hsuf as [[-> _]|[n [-> [Hn _]]]]; [split; intros []|].
    destruct (atoi_numeral _ _ Hn) as [_ Hnn].
    split; (intros [Hc|Hc]; [discriminate|]);
      revert Hc; apply (forallb_not_In numeral_char); auto. }
  rewrite expand_no_comma.
  2:{ intros Hin. apply in_app_or in Hin as [Hin|[Hin|Hin]];
      [revert Hin; apply (forallb_not_In numeral_char); auto | discriminate |].
      apply in_app_or in Hin as [Hin|Hin];
      [revert Hin; apply (forallb_not_In numeral_char); auto | tauto]. }
  unfold expand_switch.
  destruct a as [|c a']; [contradiction|].
  assert (Hc : c <> "*"%char).
  { apply (bool_pred_neq numeral_char); [|reflexivity].
    simpl in Hna. apply andb_prop in Hna. tauto. }
  replace (gostr_eqb ((c :: a') ++ "-"%char :: b ++ suffix) (str "*")) with false.
  2:{ unfold gostr_eqb. destruct (list_eq_dec _ _ _) as [E|E]; [|reflexivity].
      simpl in E. inversion E. contradiction. }
  replace (hasPrefix ((c :: a') ++ "-"%char :: b ++ suffix) (str "*/")) with false.
  2:{ simpl. destruct (Ascii.eqb_spec c "*"%char); [contradiction | reflexivity]. }
  replace (contains "-"%char ((c :: a') ++ "-"%char :: b ++ suffix)) with true.
  2:{ symmetry. apply contains_In. apply in_or_app. right. left. reflexivity. }
  destruct (expandRange_numerals (c :: a') b A B min max Ha Hb Ham Hbm) as [H1 H2].
  destruct Hsuf as [[-> ->]|[n [-> [Hn Hnm]]]].
  - rewrite app_nil_r. exact H1.
  - apply H2; [exact Hn | apply contains_false_iff; exact Hnm].
Qed.

Lemma letter_not_numeral_char : forall c, is_letter c = true -> numeral_char c = false.
Proof.
  intros c H. destruct (numeral_char c) eqn:E; [|reflexivity]. exfalso.
  revert H E. unfold is_letter, is_lower, numeral_char, is_digit.
  destruct (Ascii.eqb_spec c "-"%char) as [->|_]; [simpl; discriminate|].
  destruct (Ascii.eqb_spec c "+"%char) as [->|_]; [simpl; discriminate|].
  rewrite !orb_false_r.
  intros H1 H2. apply andb_prop in H2 as [H2 H3]. apply Nat.leb_le in H2, H3.
  apply orb_prop in H1 as [H1|H1]; apply andb_prop in H1 as [H1 H4];
    apply Nat.leb_le in H1, H4; lia.
Qed.

(** Text with a letter anywhere is not a numeral. *)
Lemma atoi_letter_in : forall c r, In c r -> is_letter c = true -> atoi r = None.
Proof.
  intros c r Hin Hc. destruct (atoi r) as [v|] eqn:E; [|reflexivity].
  destruct (atoi_numeral _ _ E) as [_ Hn].
  exfalso. revert Hin. apply (forallb_not_In numeral_char); [exact Hn|].
  apply letter_not_numeral_char. exact Hc.
Qed.

Lemma letter_neq : forall c x, is_letter c = true -> is_letter x = false -> c <> x.
Proof. intros c x. apply bool_pred_neq. Qed.

(** Text made of letters takes the single-value branch of [expand]. *)
Lemma expand_letters : forall s field min max, s <> [] -> forallb is_letter s = true ->
  expand s field min max = expandSingle s field min max.
Proof.
  intros s field min max Hne H.
  rewrite expand_no_comma by (apply (forallb_not_In is_letter); [exact H | reflexivity]).
  unfold expand_switch.
  destruct s as [|c r]; [contradiction|].
  assert (Hc : is_letter c = true) by (simpl in H; apply andb_prop in H; tauto).
  replace (gostr_eqb (c :: r) (str "*")) with false.
  2:{ unfold gostr_eqb. destruct (list_eq_dec _ _ _) as [E|E]; [|reflexivity].
      inversion E; subst. discriminate. }
  replace (hasPrefix (c :: r) (str "*/")) with false.
  2:{ simpl. destruct (Ascii.eqb_spec c "*"%char) as [E|E]; [subst; discriminate | reflexivity]. }
  rewrite contains_false by (apply (forallb_not_In is_letter); [exact H | reflexivity]).
  reflexivity.
Qed.

Lemma lookup_month_names : forall name v, In (name, v) month_names ->
  lookup name month_names = Some v.
Proof.
  intros name v H.
  repeat (destruct H as [H|H]; [inversion H; subst; reflexivity|]). destruct H.
Qed.

Lemma lookup_dayOfWeek_names : forall name v, In (name, v) dayOfWeek_names ->
  lookup name dayOfWeek_names = Some v.
Proof.
  intros name v H.
  repeat (destruct H as [H|H]; [inversion H; subst; reflexivity|]). destruct H.
Qed.

(** A name of the field's table, in any case, expands to its number. *)
Lemma expand_name : forall s name v field names min max,
  validNames field = Some names -> In (name, v) names -> toLower s = name ->
  expand s field min max = Ok [v].
Proof.
  intros s name v field names min max Hf Hin Hl.
  assert (Hall : In (name, v) all_names).
  { unfold validNames in Hf. unfold all_names. apply in_or_app.
    destruct (field =? month); [inversion Hf; subst; left; exact Hin|].
    destruct (field =? dayOfWeek); inversion Hf; subst; right; exact Hin. }
  destruct (toLower_name_letters _ _ _ Hall Hl) as [Hne Hlet].
  rewrite expand_letters by assumption.
  unfold expandSingle, lookupName. rewrite Hf, Hl.
  unfold validNames in Hf.
  destruct (field =? month); [inversion Hf; subst; rewrite (lookup_month_names _ _ Hin); reflexivity|].
  destruct (field =? dayOfWeek); inversion Hf; subst.
  rewrite (lookup_dayOfWeek_names _ _ Hin). reflexivity.
Qed.

(** On a field without names, a name is an invalid value. *)
Lemma expand_name_no_table : forall s name v field min max,
  validNames field = None -> In (name, v) all_names -> toLower s = name ->
  expand s field min max = Err (ErrInvalidValue s).
Proof.
  intros s name v field min max Hf Hin Hl.
  destruct (toLower_name_letters _ _ _ Hin Hl) as [Hne Hlet].
  rewrite expand_letters by assumption.
  unfold expandSingle, lookupName. rewrite Hf.
  destruct s as [|c r]; [contradiction|].
  rewrite (atoi_letter_in c (c :: r)); [reflexivity | left; reflexivity |].
  simpl in Hlet. apply andb_prop in Hlet. tauto.
Qed.

(** A name as the start of a range: [atoi] rejects it. *)
Lemma expandRange_name_start : forall m rest min max, m <> [] ->
  forallb is_letter m = true ->
  exists e, expandRange (m ++ "-"%char :: rest) min max = Err e.
Proof.
  intros m rest min max Hne Hlet.
  destruct m as [|c r]; [contradiction|].
  assert (Hc : is_letter c = true) by (simpl in Hlet; apply andb_prop in Hlet; tauto).
  unfold expandRange.
  rewrite split_app_sep by (apply (forallb_not_In is_letter); [exact Hlet | reflexivity]).
  rewrite (atoi_letter_in c (c :: r)) by (simpl; tauto).
  destruct (split "-"%char rest) as [|x [|y t]]; eexists; reflexivity.
Qed.

(** A name as the end of a range, with or without a step. *)
Lemma expandRange_name_end : forall a m rest min max, ~ In "-"%char a ->
  m <> [] -> forallb is_letter m = true ->
  exists e, expandRange (a ++ "-"%char :: m ++ rest) min max = Err e.
Proof.
  intros a m rest min max Ha Hne Hlet.
  destruct m as [|c r]; [contradiction|].
  assert (Hc : is_letter c = true) by (simpl in Hlet; apply andb_prop in Hlet; tauto).
  assert (Hatoi : forall t, atoi ((c :: r) ++ t) = None)
    by (intros t; apply (atoi_letter_in c); [left; reflexivity | exact Hc]).
  unfold expandRange.
  rewrite split_app_sep by exact Ha.
  rewrite split_app_prefix
    by (apply (forallb_not_In is_letter); [exact Hlet | reflexivity]).
  destruct (split_nonempty "-"%char rest) as [h [t Eh]]. rewrite Eh.
  destruct t as [|t0 t]; [|eexists; reflexivity].
  destruct (atoi a) as [start|]; [|eexists; reflexivity].
  destruct (contains "/"%char ((c :: r) ++ h)).
  - rewrite split_app_prefix
      by (apply (forallb_not_In is_letter); [exact Hlet | reflexivity]).
    destruct (split_nonempty "/"%char h) as [h' [t' Eh']]. rewrite Eh'.
    destruct t' as [|st [|x t']]; try (eexists; reflexivity).
    destruct (atoi st) as [step|]; [|eexists; reflexivity].
    unfold expandRange_end. rewrite Hatoi. eexists; reflexivity.
  - unfold expandRange_end. rewrite Hatoi. eexists; reflexivity.
Qed.

Lemma Forall2_names_expand : forall field names min max ps vs,
  validNames field = Some names ->
  Forall2 (fun p v => exists name, In (name, v) names /\ toLower p = name) ps vs ->
  Forall2 (fun p l => expand p field min max = Ok l) ps (map (fun v => [v]) vs).
Proof.
  intros field names min max ps vs Hf H.
  induction H as [|p v ps vs [name [Hin Hl]] _ IH]; simpl; constructor; [|exact IH].
  exact (expand_name p name v field names min max Hf Hin Hl).
Qed.

Lemma concat_singletons : forall (vs : list Z), List.concat (map (fun v => [v]) vs) = vs.
Proof. induction vs as [|v vs IH]; simpl; [reflexivity | rewrite IH; reflexivity]. Qed.

Lemma hasPrefix_star_slash : forall s, hasPrefix s (str "*/") = true ->
  exists t, s = "*"%char :: "/"%char :: t.
Proof.
  intros [|x0 [|x1 t]] H; simpl in H.
  - discriminate.
  - rewrite andb_false_r in H. discriminate.
  - apply andb_prop in H as [H0 H1]. apply andb_prop in H1 as [H1 _].
    apply Ascii.eqb_eq in H0, H1. subst. eexists; reflexivity.
Qed.

(** ** [Parse] *)

(** Field [i] of the split input expanded with that field's bounds: the
    body of [Parse]'s loop at index [i]. *)
Definition expand_field (parts : list gostr) (i : nat) : result :=
  let '(min, max) := validRanges (Z.of_nat i) in
  expand (nth i parts []) (Z.of_nat i) min max.

Lemma parse_loop_S : forall k j parts acc,
  parse_loop (S k) (Z.of_nat j) parts acc =
  match expand_field parts j with
  | Ok v => parse_loop k (Z.of_nat (S j)) parts (acc ++ [v])
  | Err e => PRet Expression_zero (Some (ErrField (Z.of_nat j) e))
  | Diverges => PDiverges
  end.
Proof.
  intros k j parts acc. unfold expand_field. simpl parse_loop.
  rewrite Nat2Z.id. replace (Z.of_nat j + 1) with (Z.of_nat (S j)) by lia.
  destruct (validRanges (Z.of_nat j)). reflexivity.
Qed.

Lemma parse_loop_err : forall d k j0 parts acc e, (d < k)%nat ->
  (forall j, (j < d)%nat -> exists v, expand_field parts (j0 + j) = Ok v) ->
  expand_field parts (j0 + d) = Err e ->
  parse_loop k (Z.of_nat j0) parts acc
  = PRet Expression_zero (Some (ErrField (Z.of_nat (j0 + d)) e)).
Proof.
  induction d as [|d IH]; intros k j0 parts acc e Hk Hok Herr;
    (destruct k as [|k]; [lia|]); rewrite parse_loop_S.
  - rewrite Nat.add_0_r in *. rewrite Herr. reflexivity.
  - destruct (Hok 0%nat ltac:(lia)) as [v Hv]. rewrite Nat.add_0_r in Hv. rewrite Hv.
    replace (j0 + S d)%nat with (S j0 + d)%nat by lia.
    apply IH; [lia | | replace (S j0 + d)%nat with (j0 + S d)%nat by lia; exact Herr].
    intros j Hj. replace (S j0 + j)%nat with (j0 + S j)%nat by lia. apply Hok. lia.
Qed.

Lemma parse_loop_ok : forall k j0 parts acc vs, List.length vs = k ->
  (forall j, (j < k)%nat -> expand_field parts (j0 + j) = Ok (nth j vs [])) ->
  parse_loop k (Z.of_nat j0) parts acc = PRet (build (acc ++ vs) parts) None.
Proof.
  induction k as [|k IH]; intros j0 parts acc vs Hlen Hok.
  - destruct vs; [|discriminate]. rewrite app_nil_r. reflexivity.
  - destruct vs as [|v vs]; [discriminate|]. simpl in Hlen.
    rewrite parse_loop_S.
    specialize (Hok 0%nat ltac:(lia)) as Hv. rewrite Nat.add_0_r in Hv. rewrite Hv.
    rewrite IH with (vs := vs) by
      (try lia; intros j Hj; replace (S j0 + j)%nat with (j0 + S j)%nat by lia;
       apply (Hok (S j)); lia).
    rewrite <- app_assoc. reflexivity.
Qed.

Lemma parse_loop_error_zero : forall k i parts acc e err,
  parse_loop k i parts acc = PRet e (Some err) -> e = Expression_zero.
Proof.
  induction k as [|k IH]; intros i parts acc e err H; simpl in H; [discriminate|].
  destruct (validRanges i) as [mn mx].
  destruct (expand (nth (Z.to_nat i) parts []) i mn mx); [exact (IH _ _ _ _ _ H) | |discriminate].
  inversion H. reflexivity.
Qed.

Lemma splitN_length : forall c n s, (List.length (splitN c n s) <= n)%nat.
Proof.
  intros c n. induction n as [|n IH]; intros s; [reflexivity|].
  destruct n as [|n]; [simpl; lia|].
  change (splitN c (S (S n)) s) with
    (match cut c s with None => [s] | Some (pre, post) => pre :: splitN c (S n) post end).
  destruct (cut c s) as [[pre post]|]; cbn [List.length]; [specialize (IH post); lia | lia].
Qed.

Lemma splitN_join : forall c ps, Forall (fun p => ~ In c p) (removelast ps) ->
  ps <> [] -> splitN c (List.length ps) (join c ps) = ps.
Proof.
  intros c ps. induction ps as [|p ps IH]; intros H Hne; [congruence|].
  destruct ps as [|q qs]; [reflexivity|].
  simpl in H. inversion H as [|? ? Hp Hps]; subst.
  change (join c (p :: q :: qs)) with (p ++ c :: join c (q :: qs)).
  change (splitN c (List.length (p :: q :: qs)) (p ++ c :: join c (q :: qs))) with
    (match cut c (p ++ c :: join c (q :: qs)) with
     | None => [p ++ c :: join c (q :: qs)]
     | Some (pre, post) => pre :: splitN c (List.length (q :: qs)) post end).
  rewrite cut_app_sep by exact Hp. rewrite IH by (exact Hps || discriminate). reflexivity.
Qed.

Lemma splitN_parts : forall c n s, (1 <= n)%nat ->
  join c (splitN c n s) = s /\ Forall (fun p => ~ In c p) (removelast (splitN c n s)).
Proof.
  intros c n. induction n as [|n IH]; intros s Hn; [lia|].
  destruct n as [|n]; [split; [reflexivity | constructor]|].
  change (splitN c (S (S n)) s) with
    (match cut c s with None => [s] | Some (pre, post) => pre :: splitN c (S n) post end).
  destruct (cut c s) as [[pre post]|] eqn:Ec; [|split; [reflexivity | constructor]].
  destruct (cut_Some _ _ _ _ Ec) as [-> Hpre].
  destruct (IH post ltac:(lia)) as [Hj Hf].
  destruct (splitN c (S n) post) as [|q qs] eqn:Es.
  - pose proof (f_equal (@List.length gostr) Es) as E. simpl in E.
    destruct n; simpl in Es; [discriminate|]. destruct (cut c post) as [[]|]; discriminate.
  - split.
    + change (join c (pre :: q :: qs)) with (pre ++ c :: join c (q :: qs)). rewrite Hj. reflexivity.
    + simpl. constructor; [exact Hpre | exact Hf].
Qed.

Ltac gtb_true := symmetry; apply Z.gtb_lt; lia.
Ltac gtb_false := symmetry; rewrite Z.gtb_ltb; apply Z.ltb_ge; lia.

(** * Claims *)

(** ** C1 (code_bug): the values of a field stay within its bounds.
    A negative step is accepted by [atoi] (ParseInt into int8, then cast
    to uint8) and the uint8 loop counter wraps: day-of-month [*/-1] gives
    step 255 and the values [1] then [(1 + 255) mod 256 = 0], below the
    field's minimum 1; the whole [Parse] succeeds with day-of-month [1 0]. *)
Theorem C1_dayOfMonth_value_below_min :
  validRanges dayOfMonth = (1, 31) /\
  expand (str "*/-1") dayOfMonth 1 31 = Ok [1; 0] /\
  Parse (str "0 0 */-1 1 1 /bin/test")
  = PRet (mkExpression [0] [0] [1; 0] [1] [1] (str "/bin/test")) None.
Proof. split; [reflexivity|]. split; vm_compute; reflexivity. Qed.

(** ** C2 (code_bug): every field expansion terminates.
    [*/0] parses the step 0, and [for x := 0; x <= 59; x += 0] never
    exits: no number of iterations leaves the loop, and [expand] and
    [Parse] diverge. *)
Theorem C2_step_zero_never_terminates :
  (forall n, stepRange_loop n 0 59 0 = None) /\
  expand (str "*/0") minute 0 59 = Diverges /\
  expand (str "0-5/0") minute 0 59 = Diverges /\
  Parse (str "*/0 0 1 1 1 /bin/test") = PDiverges.
Proof.
  split.
  - induction n as [|n IH]; [reflexivity|].
    cbn [stepRange_loop]. replace ((0 + 0) mod 256) with 0 by reflexivity.
    rewrite IH. reflexivity.
  - split; [|split]; vm_compute; reflexivity.
Qed.

(** ** C3 (code_bug): numeric parsing accepts 0..255 and rejects rather
    than wraps.  [atoi] is [strconv.ParseInt(s, 10, 8)] cast to uint8:
    it rejects "200" (outside int8) and accepts "-1" as 255. *)
Theorem C3_atoi_int8_and_wrap :
  atoi (str "200") = None /\ atoi (str "128") = None /\
  atoi (str "-1") = Some 255 /\
  expand (str "*/-1") minute 0 59 = Ok [0].
Proof. repeat split; vm_compute; reflexivity. Qed.

(** ** C4 (code_bug): [*] yields [min..max] ([1..7] for day of week) and
    [*/N] yields [min, min+N, ...] while [<= max].  The wildcard part holds;
    for N parsed from "-1" (255) day-of-month yields [1; 0] where the
    sequence 1, 1+255, ... gives [1], and for N = 0 the expansion never
    returns. *)
Theorem C4_wildcard_and_step :
  expand (str "*") minute 0 59 = Ok (spec_steps 0 59 1) /\
  expand (str "*") hour 0 23 = Ok (spec_steps 0 23 1) /\
  expand (str "*") dayOfMonth 1 31 = Ok (spec_steps 1 31 1) /\
  expand (str "*") month 1 12 = Ok (spec_steps 1 12 1) /\
  expand (str "*") dayOfWeek 0 7 = Ok [1; 2; 3; 4; 5; 6; 7] /\
  expand (str "*/-1") dayOfMonth 1 31 = Ok [1; 0] /\
  spec_steps 1 31 255 = [1] /\
  expand (str "*/0") dayOfMonth 1 31 = Diverges.
Proof. repeat split; vm_compute; reflexivity. Qed.

(** ** C5 (corrected): range expressions.  The order check comes first:
    minute [100-70] has both endpoints outside 0..59 and fails with the
    order error "invalid range 100 > 70", not with "outside of range". *)
Lemma C5_counterexample :
  expand (str "100-70") minute 0 59 = Err (ErrRangeOrder 100 70) /\
  expand (str "100-70") minute 0 59 <> Err (ErrOutsideRange 0 59).
Proof. split; vm_compute; [reflexivity | discriminate]. Qed.

(** C5, as amended: for a range [A-B] or [A-B/N] whose endpoints and step
    are unsigned numerals accepted by [atoi] (values 0..127) and whose step
    is not 0: if [A > B] the expansion fails with the order error (also
    when an endpoint is out of bounds); otherwise if [A] or [B] lies outside
    [min, max] it fails with "outside of range: min-max"; otherwise it
    yields A, A+N, A+2N, ... while [<= B], with N = 1 when there is no
    [/N] suffix. *)
Theorem C5_range_expansion : forall a b suffix A B N field min max,
  atoi a = Some A -> atoi b = Some B ->
  contains "-"%char a = false -> contains "-"%char b = false ->
  (suffix = [] /\ N = 1 \/
   exists n, suffix = "/"%char :: n /\ atoi n = Some N /\
             contains "-"%char n = false /\ N <> 0) ->
  let s := a ++ "-"%char :: b ++ suffix in
  (A > B -> expand s field min max = Err (ErrRangeOrder A B)) /\
  (A <= B -> (A < min \/ max < A \/ B < min \/ max < B) ->
   expand s field min max = Err (ErrOutsideRange min max)) /\
  (min <= A -> A <= B -> B <= max ->
   expand s field min max = Ok (spec_steps A B N)).
Proof.
  intros a b suffix A B N field min max Ha Hb Ham Hbm Hsuf s.
  assert (HA := atoi_unsigned a A Ha (proj1 (contains_false_iff _ _) Ham)).
  assert (HB := atoi_unsigned b B Hb (proj1 (contains_false_iff _ _) Hbm)).
  assert (HN : 1 <= N <= 127).
  { destruct Hsuf as [[_ ->]|[n [_ [Hn [Hnm HN0]]]]]; [lia|].
    pose proof (atoi_unsigned n N Hn (proj1 (contains_false_iff _ _) Hnm)). lia. }
  assert (He : expand s field min max = expandRange_checked A B N min max).
  { apply expand_range_numerals; try assumption.
    destruct Hsuf as [H|[n [H1 [H2 [H3 _]]]]]; [left; exact H | right; eauto]. }
  rewrite He. unfold expandRange_checked.
  split; [|split].
  - intros Hgt. replace (A >? B) with true by gtb_true. reflexivity.
  - intros Hle Hout. replace (A >? B) with false by gtb_false.
    replace (((min >? A) || (A >? max)) || ((min >? B) || (B >? max))) with true.
    + reflexivity.
    + symmetry. destruct Hout as [H|[H|[H|H]]].
      * replace (min >? A) with true by gtb_true. reflexivity.
      * replace (A >? max) with true by gtb_true.
        rewrite !orb_true_r. reflexivity.
      * replace (min >? B) with true by gtb_true.
        rewrite !orb_true_r. reflexivity.
      * replace (B >? max) with true by gtb_true.
        rewrite !orb_true_r. reflexivity.
  - intros H1 H2 H3.
    replace (A >? B) with false by gtb_false.
    replace (min >? A) with false by gtb_false.
    replace (A >? max) with false by gtb_false.
    replace (min >? B) with false by gtb_false.
    replace (B >? max) with false by gtb_false.
    simpl. rewrite stepRange_spec_steps by lia. reflexivity.
Qed.

Lemma C5_range_expansion_witness :
  expand (str "10-59/10") minute 0 59 = Ok [10; 20; 30; 40; 50].
Proof.
  assert (Ha : atoi (str "10") = Some 10) by (vm_compute; reflexivity).
  assert (Hb : atoi (str "59") = Some 59) by (vm_compute; reflexivity).
  assert (Hsuf : str "/10" = [] /\ 10 = 1 \/
                 exists n, str "/10" = "/"%char :: n /\ atoi n = Some 10 /\
                           contains "-"%char n = false /\ 10 <> 0).
  { right. exists (str "10"). split; [reflexivity|]. split; [vm_compute; reflexivity|].
    split; [vm_compute; reflexivity | discriminate]. }
  destruct (C5_range_expansion (str "10") (str "59") (str "/10") 10 59 10 minute 0 59
              Ha Hb (eq_refl false) (eq_refl false) Hsuf) as [_ [_ H]].
  change (str "10-59/10") with (str "10" ++ "-"%char :: str "59" ++ str "/10").
  rewrite H by (unfold minute; lia).
  vm_compute. reflexivity.
Defined.

(** ** C6 (confirmed): a field with a comma is split on every comma, each
    piece is expanded with the same field and bounds, and the results are
    concatenated in input order, without removing duplicates or sorting. *)
Theorem C6_list_concatenation :
  (forall s field min max ls,
     contains ","%char s = true ->
     Forall2 (fun p l => expand p field min max = Ok l) (split ","%char s) ls ->
     expand s field min max = Ok (List.concat ls)) /\
  split ","%char (str "0,1,2,10-59/10") = [str "0"; str "1"; str "2"; str "10-59/10"] /\
  expand (str "0,1,2,10-59/10") minute 0 59 = Ok [0; 1; 2; 10; 20; 30; 40; 50] /\
  expand (str "5,1,5,0-2,1-3") minute 0 59 = Ok [5; 1; 5; 0; 1; 2; 1; 2; 3].
Proof.
  split; [|repeat split; vm_compute; reflexivity].
  intros s field min max ls Hc H.
  rewrite expand_eq. cbv zeta.
  apply contains_In in Hc.
  replace (1 <? List.length (split ","%char s))%nat with true
    by (symmetry; apply Nat.ltb_lt; apply split_length_In; exact Hc).
  exact (expand_parts_Forall2 _ _ _ [] H).
Qed.

Lemma C6_list_concatenation_witness :
  expand (str "0,1,2,10-59/10") minute 0 59 = Ok [0; 1; 2; 10; 20; 30; 40; 50].
Proof.
  destruct C6_list_concatenation as [H [Hs _]].
  apply (H (str "0,1,2,10-59/10") minute 0 59 [[0]; [1]; [2]; [10; 20; 30; 40; 50]]).
  - vm_compute. reflexivity.
  - rewrite Hs.
    repeat (apply Forall2_cons; [vm_compute; reflexivity|]). apply Forall2_nil.
Defined.

(** ** C7 (confirmed): names are looked up case-insensitively for month
    and day of week ([jaN] is 1, [SuN] is 7); on minute, hour and day of
    month every name, in any case, fails as an invalid value. *)
Theorem C7_names_case_insensitive :
  (forall s name v min max, In (name, v) month_names -> toLower s = name ->
     expand s month min max = Ok [v]) /\
  (forall s name v min max, In (name, v) dayOfWeek_names -> toLower s = name ->
     expand s dayOfWeek min max = Ok [v]) /\
  (forall s name v field min max, In (name, v) all_names ->
     field = minute \/ field = hour \/ field = dayOfMonth -> toLower s = name ->
     expand s field min max = Err (ErrInvalidValue s)) /\
  expand (str "jaN") month 1 12 = Ok [1] /\
  expand (str "SuN") dayOfWeek 0 7 = Ok [7].
Proof.
  split; [|split; [|split]].
  - intros s name v min max Hin Hl. apply (expand_name s name v month month_names);
      [reflexivity | exact Hin | exact Hl].
  - intros s name v min max Hin Hl. apply (expand_name s name v dayOfWeek dayOfWeek_names);
      [reflexivity | exact Hin | exact Hl].
  - intros s name v field min max Hin Hf Hl.
    apply (expand_name_no_table s name v); [|exact Hin | exact Hl].
    destruct Hf as [-> | [-> | ->]]; reflexivity.
  - split; vm_compute; reflexivity.
Qed.

Lemma C7_names_case_insensitive_witness :
  expand (str "DeC") month 1 12 = Ok [12] /\
  expand (str "fRi") dayOfWeek 0 7 = Ok [5] /\
  expand (str "Jan") hour 0 23 = Err (ErrInvalidValue (str "Jan")).
Proof.
  destruct C7_names_case_insensitive as [Hm [Hd [Hn _]]].
  split; [|split].
  - apply (Hm (str "DeC") (str "dec") 12); [simpl; tauto | vm_compute; reflexivity].
  - apply (Hd (str "fRi") (str "fri") 5); [simpl; tauto | vm_compute; reflexivity].
  - apply (Hn (str "Jan") (str "jan") 1); [simpl; tauto | right; left; reflexivity |
      vm_compute; reflexivity].
Defined.

(** ** C8 (corrected): names and ranges/lists.  A list piece goes through
    [expand] again, so names do expand inside a comma-separated list:
    month [jan,feb] is [1; 2], day of week [mon,fri] is [1; 5]. *)
Lemma C8_counterexample :
  expand (str "jan,feb") month 1 12 = Ok [1; 2] /\
  expand (str "mon,fri") dayOfWeek 0 7 = Ok [1; 5].
Proof. split; vm_compute; reflexivity. Qed.

(** C8, as amended: a range whose start or end is a three-letter name (in
    any case) always fails, whatever follows the name; names inside a
    comma-separated list are expanded like single values: the pieces of a
    month or day-of-week list that are names yield their numbers. *)
Theorem C8_names_in_ranges_and_lists :
  (forall m name v rest field min max, In (name, v) all_names -> toLower m = name ->
     contains ","%char rest = false ->
     exists e, expand (m ++ "-"%char :: rest) field min max = Err e) /\
  (forall a m name v suffix field min max, In (name, v) all_names -> toLower m = name ->
     contains ","%char a = false -> contains "-"%char a = false ->
     contains ","%char suffix = false ->
     exists e, expand (a ++ "-"%char :: m ++ suffix) field min max = Err e) /\
  (forall field names ps vs min max, validNames field = Some names ->
     (1 < List.length ps)%nat ->
     Forall2 (fun p v => exists name, In (name, v) names /\ toLower p = name) ps vs ->
     expand (join ","%char ps) field min max = Ok vs).
Proof.
  split; [|split].
  - intros m name v rest field min max Hin Hl Hr.
    destruct (toLower_name_letters _ _ _ Hin Hl) as [Hne Hlet].
    apply contains_false_iff in Hr.
    destruct m as [|c r]; [contradiction|].
    assert (Hc : is_letter c = true) by (simpl in Hlet; apply andb_prop in Hlet; tauto).
    rewrite expand_no_comma.
    2:{ intros H. apply in_app_or in H as [H|[H|H]]; [|discriminate|exact (Hr H)].
        revert H. apply (forallb_not_In is_letter); [exact Hlet | reflexivity]. }
    unfold expand_switch.
    replace (gostr_eqb ((c :: r) ++ "-"%char :: rest) (str "*")) with false.
    2:{ unfold gostr_eqb. destruct (list_eq_dec _ _ _) as [E|E]; [|reflexivity].
        inversion E; subst. discriminate. }
    replace (hasPrefix ((c :: r) ++ "-"%char :: rest) (str "*/")) with false.
    2:{ simpl. destruct (Ascii.eqb_spec c "*"%char) as [E|E];
        [subst; discriminate | reflexivity]. }
    replace (contains "-"%char ((c :: r) ++ "-"%char :: rest)) with true.
    2:{ symmetry. apply contains_In. apply in_or_app. right. left. reflexivity. }
    apply expandRange_name_start; [discriminate | exact Hlet].
  - intros a m name v suffix field min max Hin Hl Hac Ham Hs.
    destruct (toLower_name_letters _ _ _ Hin Hl) as [Hne Hlet].
    apply contains_false_iff in Hac, Ham, Hs.
    destruct m as [|c r]; [contradiction|].
    assert (Hc : is_letter c = true) by (simpl in Hlet; apply andb_prop in Hlet; tauto).
    set (s := a ++ "-"%char :: (c :: r) ++ suffix).
    assert (Hcs : In c s) by (apply in_or_app; right; right; left; reflexivity).
    rewrite expand_no_comma.
    2:{ intros H. apply in_app_or in H as [H|[H|H]]; [exact (Hac H)|discriminate|].
        apply in_app_or in H as [H|H]; [|exact (Hs H)].
        revert H. apply (forallb_not_In is_letter); [exact Hlet | reflexivity]. }
    unfold expand_switch.
    destruct (gostr_eqb s (str "*")) eqn:E1.
    { exfalso. unfold gostr_eqb in E1. destruct (list_eq_dec _ _ _) as [E|E]; [|discriminate].
      apply (f_equal (@List.length ascii)) in E. unfold s in E.
      rewrite length_app in E. simpl in E. lia. }
    destruct (hasPrefix s (str "*/")) eqn:E2.
    { unfold expandAnyStepRange.
      destruct (hasPrefix_star_slash _ E2) as [t Et]. rewrite Et in Hcs |- *.
      destruct Hcs as [Hx|[Hx|Hx]].
      - exfalso. subst c. discriminate.
      - exfalso. subst c. discriminate.
      - simpl skipn. rewrite (atoi_letter_in c t Hx Hc). eexists; reflexivity. }
    replace (contains "-"%char s) with true.
    2:{ symmetry. apply contains_In. apply in_or_app. right. left. reflexivity. }
    apply expandRange_name_end; [exact Ham | discriminate | exact Hlet].
  - intros field names ps vs min max Hf Hlen H.
    assert (Hnc : Forall (fun p => ~ In ","%char p) ps).
    { clear Hlen. induction H as [|p v ps' vs' [name [Hin Hl]] _ IH]; constructor; [|exact IH].
      assert (Hall : In (name, v) all_names).
      { unfold validNames in Hf. unfold all_names. apply in_or_app.
        destruct (field =? month); [inversion Hf; subst; left; exact Hin|].
        destruct (field =? dayOfWeek); inversion Hf; subst; right; exact Hin. }
      destruct (toLower_name_letters _ _ _ Hall Hl) as [_ Hlet].
      apply (forallb_not_In is_letter); [exact Hlet | reflexivity]. }
    rewrite expand_eq. cbv zeta.
    rewrite split_join by (first [exact Hnc | destruct ps; simpl in Hlen; [lia | discriminate]]).
    replace (1 <? List.length ps)%nat with true by (symmetry; apply Nat.ltb_lt; exact Hlen).
    rewrite (expand_parts_Forall2 _ _ _ [] (Forall2_names_expand _ _ min max _ _ Hf H)).
    rewrite concat_singletons. reflexivity.
Qed.

Lemma C8_names_in_ranges_and_lists_witness :
  (exists e, expand (str "mon-wed") dayOfWeek 0 7 = Err e) /\
  (exists e, expand (str "1-Wed/2") dayOfWeek 0 7 = Err e) /\
  expand (str "Jan,feb,DEC") month 1 12 = Ok [1; 2; 12].
Proof.
  destruct C8_names_in_ranges_and_lists as [H1 [H2 H3]].
  split; [|split].
  - apply (H1 (str "mon") (str "mon") 1 (str "wed"));
      [simpl; tauto | vm_compute; reflexivity | vm_compute; reflexivity].
  - apply (H2 (str "1") (str "Wed") (str "wed") 3 (str "/2"));
      [simpl; tauto | vm_compute; reflexivity | vm_compute; reflexivity |
       vm_compute; reflexivity | vm_compute; reflexivity].
  - apply (H3 month month_names [str "Jan"; str "feb"; str "DEC"]); [reflexivity | simpl; lia |].
    repeat (apply Forall2_cons;
            [eexists; split; [simpl; tauto | vm_compute; reflexivity] |]).
    apply Forall2_nil.
Defined.

(** ** C9 (confirmed): [Parse] cuts its input at the first five single
    spaces into at most six parts, the sixth holding the rest verbatim
    (spaces included); with fewer than six parts it fails with "invalid
    expression"; the first field whose expansion fails aborts the parse
    with that error wrapped with the field's index; when the five fields
    expand, the command is the sixth part. *)
Theorem C9_parse_split_and_abort :
  (forall s, (List.length (splitN " "%char 6 s) <= 6)%nat) /\
  (forall p0 p1 p2 p3 p4 p5,
     Forall (fun p => contains " "%char p = false) [p0; p1; p2; p3; p4] ->
     splitN " "%char 6 (join " "%char [p0; p1; p2; p3; p4; p5])
     = [p0; p1; p2; p3; p4; p5]) /\
  (forall s p0 p1 p2 p3 p4 p5,
     splitN " "%char 6 s = [p0; p1; p2; p3; p4; p5] ->
     s = join " "%char [p0; p1; p2; p3; p4; p5] /\
     Forall (fun p => contains " "%char p = false) [p0; p1; p2; p3; p4]) /\
  (forall s, (List.length (splitN " "%char 6 s) < 6)%nat ->
     Parse s = PRet Expression_zero (Some ErrInvalidExpression)) /\
  (forall s i e, List.length (splitN " "%char 6 s) = 6%nat -> (i < 5)%nat ->
     (forall j, (j < i)%nat -> exists v, expand_field (splitN " "%char 6 s) j = Ok v) ->
     expand_field (splitN " "%char 6 s) i = Err e ->
     Parse s = PRet Expression_zero (Some (ErrField (Z.of_nat i) e))) /\
  (forall s p0 p1 p2 p3 p4 p5 v0 v1 v2 v3 v4,
     splitN " "%char 6 s = [p0; p1; p2; p3; p4; p5] ->
     expand p0 minute 0 59 = Ok v0 -> expand p1 hour 0 23 = Ok v1 ->
     expand p2 dayOfMonth 1 31 = Ok v2 -> expand p3 month 1 12 = Ok v3 ->
     expand p4 dayOfWeek 0 7 = Ok v4 ->
     Parse s = PRet (mkExpression v0 v1 v2 v3 v4 p5) None).
Proof.
  split; [|split; [|split; [|split; [|split]]]].
  - intros s. apply splitN_length.
  - intros p0 p1 p2 p3 p4 p5 H.
    apply (splitN_join " "%char [p0; p1; p2; p3; p4; p5]); [|discriminate].
    simpl. revert H. apply Forall_impl. intros p Hp. apply contains_false_iff. exact Hp.
  - intros s p0 p1 p2 p3 p4 p5 H.
    destruct (splitN_parts " "%char 6 s ltac:(lia)) as [Hj Hf].
    rewrite H in Hj, Hf. split; [symmetry; exact Hj|].
    simpl in Hf. revert Hf. apply Forall_impl. intros p Hp. apply contains_false_iff. exact Hp.
  - intros s H. unfold Parse.
    replace (List.length (splitN " "%char 6 s) =? 6)%nat with false
      by (symmetry; apply Nat.eqb_neq; lia). reflexivity.
  - intros s i e Hlen Hi Hok Herr. unfold Parse. rewrite Hlen. simpl negb. cbv iota.
    change 0 with (Z.of_nat 0).
    apply (parse_loop_err i 5 0); [exact Hi | exact Hok | exact Herr].
  - intros s p0 p1 p2 p3 p4 p5 v0 v1 v2 v3 v4 H H0 H1 H2 H3 H4.
    unfold Parse. rewrite H. cbv [List.length Nat.eqb negb].
    change 0 with (Z.of_nat 0).
    rewrite (parse_loop_ok 5 0 [p0; p1; p2; p3; p4; p5] [] [v0; v1; v2; v3; v4]);
      [reflexivity | reflexivity |].
    intros j Hj. unfold expand_field.
    destruct j as [|[|[|[|[|j]]]]]; [exact H0 | exact H1 | exact H2 | exact H3 | exact H4 | lia].
Qed.

Lemma C9_parse_split_and_abort_witness :
  Parse (str "*/15 0 1,15 * 1-5 /usr/bin/find")
  = PRet (mkExpression [0; 15; 30; 45] [0] [1; 15] (spec_steps 1 12 1) [1; 2; 3; 4; 5]
            (str "/usr/bin/find")) None /\
  Parse (str "0 0 1 1-two 1 /bin/test")
  = PRet Expression_zero (Some (ErrField 3 (ErrInvalidRangeEnd (str "two")))) /\
  Parse (str "* * * * *") = PRet Expression_zero (Some ErrInvalidExpression).
Proof.
  destruct C9_parse_split_and_abort as [_ [_ [_ [Hshort [Herr Hok]]]]].
  split; [|split].
  - apply (Hok _ (str "*/15") (str "0") (str "1,15") (str "*") (str "1-5") (str "/usr/bin/find"));
      vm_compute; reflexivity.
  - apply (Herr _ 3%nat); [vm_compute; reflexivity | lia | |vm_compute; reflexivity].
    intros j Hj. destruct j as [|[|[|j]]]; [| | |lia]; eexists; vm_compute; reflexivity.
  - apply Hshort. vm_compute. lia.
Defined.

(** ** C10 (confirmed): whenever [Parse] returns a non-nil error, the
    returned Expression is the zero value. *)
Theorem C10_parse_error_zero_expression : forall s e err,
  Parse s = PRet e (Some err) -> e = Expression_zero.
Proof.
  intros s e err H. unfold Parse in H.
  destruct (negb (List.length (splitN " "%char 6 s) =? 6)%nat).
  - inversion H. reflexivity.
  - exact (parse_loop_error_zero _ _ _ _ _ _ H).
Qed.

Lemma C10_parse_error_zero_expression_witness :
  exists e err, Parse (str "61 0 1 1 1 /bin/test") = PRet e (Some err) /\ e = Expression_zero.
Proof.
  exists Expression_zero, (ErrField 0 (ErrOutsideRange 0 59)).
  split; [vm_compute; reflexivity|].
  apply (C10_parse_error_zero_expression (str "61 0 1 1 1 /bin/test") _
           (ErrField 0 (ErrOutsideRange 0 59))).
  vm_compute. reflexivity.
Defined.


(** * Further properties of the code *)

(** ** Helper lemmas *)

Lemma forallb_seq_Z : forall (f : Z -> bool) a n,
  forallb (fun i => f (Z.of_nat i)) (seq a n) = true ->
  forall x, Z.of_nat a <= x < Z.of_nat (a + n) -> f x = true.
Proof.
  intros f a n H x Hx. rewrite forallb_forall in H.
  specialize (H (Z.to_nat x)). rewrite Z2Nat.id in H by lia.
  apply H. apply in_seq. lia.
Qed.

Lemma exits_within_spec : forall step n x, 0 <= x < 256 -> exits_within n x step = true ->
  exists k, (k < n)%nat /\ 127 < (x + Z.of_nat k * step) mod 256.
Proof.
  intros step n. induction n as [|n IH]; intros x Hx H; simpl in H; [discriminate|].
  destruct (Z.ltb_spec 127 x) as [Hlt|Hge].
  - exists 0%nat. split; [lia|]. rewrite Z.mul_0_l, Z.add_0_r, Z.mod_small; lia.
  - destruct (IH ((x + step) mod 256) ltac:(apply Z.mod_pos_bound; lia) H) as [k [Hk Hv]].
    exists (S k). split; [lia|]. rewrite Z.add_mod_idemp_l in Hv by lia.
    replace (x + Z.of_nat (S k) * step) with (x + step + Z.of_nat k * step) by lia. exact Hv.
Qed.

Lemma exits_within_all : forall x step, 0 <= x <= 255 -> 1 <= step <= 255 ->
  exits_within 256 x step = true.
Proof.
  assert (H : forallb (fun i => (fun x => forallb (fun j => exits_within 256 x (Z.of_nat j))
                                          (seq 1 255)) (Z.of_nat i)) (seq 0 256) = true)
    by (vm_compute; reflexivity).
  intros x step Hx Hs.
  pose proof (forallb_seq_Z _ _ _ H x ltac:(lia)) as Hx'. cbv beta in Hx'.
  exact (forallb_seq_Z (fun s => exits_within 256 x s) 1 255 Hx' step ltac:(lia)).
Qed.

(** The spec-side run [a, a+n, ...] while [<= b] as an arithmetic sequence
    of [(b - a) / n + 1] terms. *)
Lemma upto_closed : forall n b, 1 <= n -> forall k a,
  (Z.to_nat ((b - a) / n + 1) <= k)%nat ->
  upto k a b n = map (fun i => a + Z.of_nat i * n) (seq 0 (Z.to_nat ((b - a) / n + 1))).
Proof.
  intros n b Hn. induction k as [|k IH]; intros a Hk.
  - replace (Z.to_nat ((b - a) / n + 1)) with 0%nat by lia. reflexivity.
  - simpl upto. destruct (Z.leb_spec a b) as [Hab|Hab].
    + assert (Hq : 0 <= (b - a) / n) by (apply Z.div_pos; lia).
      assert (Hd : (b - (a + n)) / n = (b - a) / n - 1).
      { replace (b - (a + n)) with ((b - a) + (-1) * n) by lia.
        rewrite Z.div_add by lia. lia. }
      replace (Z.to_nat ((b - a) / n + 1)) with (S (Z.to_nat ((b - (a + n)) / n + 1)))
        by (rewrite Hd; lia).
      simpl seq. simpl map. rewrite <- seq_shift, map_map.
      rewrite IH by (rewrite Hd; lia). f_equal; [lia|].
      apply map_ext. intros i. lia.
    + assert (Hq : (b - a) / n < 0) by (apply Z.div_lt_upper_bound; lia).
      replace (Z.to_nat ((b - a) / n + 1)) with 0%nat by lia. reflexivity.
Qed.

(** ** X1: [stepRange] never returns exactly when the step is 0.
    For an end value below 128 (every field bound is at most 59), the uint8
    loop [for x := start; x <= end; x += step] fails to terminate if and
    only if it is entered ([start <= end]) with step 0; any step 1..255
    reaches a value above 127 within 256 iterations. *)
Theorem X1_stepRange_diverges_iff_step_zero : forall start end_ step,
  0 <= start <= 255 -> 0 <= end_ <= 127 -> 0 <= step <= 255 ->
  stepRange start end_ step = None <-> start <= end_ /\ step = 0.
Proof.
  intros start end_ step Hs He Hst. unfold stepRange.
  rewrite stepRange_loop_None_iff by lia. split.
  - intros H. pose proof (H 0%nat ltac:(lia)) as H0.
    rewrite Z.mul_0_l, Z.add_0_r, Z.mod_small in H0 by lia. split; [exact H0|].
    destruct (Z.eq_dec step 0) as [|Hne]; [assumption|exfalso].
    pose proof (exits_within_all start step ltac:(lia) ltac:(lia)) as Hx.
    destruct (exits_within_spec step 256 start ltac:(lia) Hx) as [k [Hk Hv]].
    specialize (H k Hk). lia.
  - intros [Hle ->] k _. rewrite Z.mul_0_r, Z.add_0_r, Z.mod_small by lia. exact Hle.
Qed.

Lemma X1_stepRange_diverges_iff_step_zero_witness :
  (stepRange 0 59 0 = None <-> 0 <= 59 /\ 0 = 0) /\
  (stepRange 5 59 7 = None <-> 5 <= 59 /\ 7 = 0).
Proof.
  split; apply X1_stepRange_diverges_iff_step_zero; lia.
Defined.

(** ** X2: without wrap-around [stepRange] is an arithmetic sequence.
    When [end + step <= 255] (true of every call of the package: bounds at
    most 59, steps that [atoi] accepts at most 127), [stepRange start end
    step] with [step >= 1] returns the [(end - start) / step + 1] values
    [start + i * step], and the empty list when [start > end]. *)
Theorem X2_stepRange_closed_form : forall start end_ step,
  0 <= start -> 0 <= end_ -> 1 <= step -> end_ + step <= 255 ->
  stepRange start end_ step =
  Some (map (fun i => start + Z.of_nat i * step)
            (seq 0 (Z.to_nat ((end_ - start) / step + 1)))).
Proof.
  intros start end_ step Hs He Hst Hw.
  rewrite stepRange_spec_steps by lia. unfold spec_steps. f_equal.
  apply upto_closed; [lia|].
  destruct (Z.leb_spec start end_) as [Hle|Hlt].
  - assert ((end_ - start) / step <= end_ - start).
    { apply Z.div_le_upper_bound; nia. }
    assert (0 <= (end_ - start) / step) by (apply Z.div_pos; lia). lia.
  - assert ((end_ - start) / step < 0) by (apply Z.div_lt_upper_bound; lia). lia.
Qed.

Lemma X2_stepRange_closed_form_witness :
  stepRange 10 59 10 = Some (map (fun i => 10 + Z.of_nat i * 10)
                                (seq 0 (Z.to_nat ((59 - 10) / 10 + 1)))).
Proof.
  apply X2_stepRange_closed_form; lia.
Defined.

(** ** Single numerals and the bounds of expanded values *)

Lemma numeral_char_lower : forall c, numeral_char c = true -> lower_ascii c = c.
Proof.
  intros c H. unfold lower_ascii.
  destruct ((65 <=? nat_of_ascii c)%nat && (nat_of_ascii c <=? 90)%nat) eqn:E; [|reflexivity].
  exfalso. apply andb_prop in E as [E1 E2]. apply Nat.leb_le in E1, E2.
  revert H. unfold numeral_char, is_digit.
  destruct (Ascii.eqb_spec c "-"%char) as [->|_]; [cbv in E1; lia|].
  destruct (Ascii.eqb_spec c "+"%char) as [->|_]; [cbv in E1; lia|].
  rewrite !orb_false_r. intros H. apply andb_prop in H as [_ H]. apply Nat.leb_le in H. lia.
Qed.

Lemma toLower_numeral : forall s, forallb numeral_char s = true -> toLower s = s.
Proof.
  induction s as [|c r IH]; intros H; [reflexivity|].
  simpl in H. apply andb_prop in H as [Hc Hr].
  unfold toLower. simpl. rewrite numeral_char_lower by exact Hc.
  f_equal. exact (IH Hr).
Qed.

Lemma lookup_In : forall k m v, lookup k m = Some v -> In (k, v) m.
Proof.
  intros k m v. induction m as [|[k' v'] m IH]; intros H; simpl in H; [discriminate|].
  unfold gostr_eqb in H. destruct (list_eq_dec ascii_dec k k') as [->|_].
  - inversion H. left. reflexivity.
  - right. exact (IH H).
Qed.

Lemma validNames_all_names : forall field names k v,
  validNames field = Some names -> In (k, v) names -> In (k, v) all_names.
Proof.
  intros field names k v Hf Hin. unfold validNames in Hf. unfold all_names. apply in_or_app.
  destruct (field =? month); [inversion Hf; subst; left; exact Hin|].
  destruct (field =? dayOfWeek); inversion Hf; subst; right; exact Hin.
Qed.

(** A numeral is never a name of [validNames]. *)
Lemma lookupName_numeral : forall s field, s <> [] -> forallb numeral_char s = true ->
  lookupName s field = None.
Proof.
  intros s field Hne Hn. unfold lookupName.
  destruct (validNames field) as [names|] eqn:Hf; [|reflexivity].
  destruct (lookup (toLower s) names) as [v|] eqn:E; [|reflexivity]. exfalso.
  apply lookup_In in E. rewrite toLower_numeral in E by exact Hn.
  apply (validNames_all_names _ _ _ _ Hf) in E.
  destruct (names_lower _ _ E) as [_ Hl].
  destruct s as [|c r]; [contradiction|].
  simpl in Hl, Hn. apply andb_prop in Hl as [Hl _]. apply andb_prop in Hn as [Hn _].
  rewrite letter_not_numeral_char in Hn; [discriminate|].
  unfold is_letter. rewrite Hl. apply orb_true_r.
Qed.

(** A numeral without a minus sign takes the single-value branch. *)
Lemma expand_numeral : forall s x field min max, atoi s = Some x -> ~ In "-"%char s ->
  expand s field min max = expandSingle s field min max.
Proof.
  intros s x field min max Ha Hm.
  destruct (atoi_numeral _ _ Ha) as [Hne Hn].
  rewrite expand_no_comma by (apply (forallb_not_In numeral_char); [exact Hn | reflexivity]).
  unfold expand_switch.
  destruct s as [|c r]; [contradiction|].
  assert (Hc : c <> "*"%char).
  { apply (bool_pred_neq numeral_char); [|reflexivity].
    simpl in Hn. apply andb_prop in Hn. tauto. }
  replace (gostr_eqb (c :: r) (str "*")) with false.
  2:{ unfold gostr_eqb. destruct (list_eq_dec _ _ _) as [E|E]; [|reflexivity].
      inversion E. contradiction. }
  replace (hasPrefix (c :: r) (str "*/")) with false.
  2:{ simpl. destruct (Ascii.eqb_spec c "*"%char); [contradiction | reflexivity]. }
  rewrite contains_false by exact Hm. reflexivity.
Qed.

Lemma join_cons_head : forall c x q qs, join c ((x :: q) :: qs) = x :: join c (q :: qs).
Proof. intros c x q [|q' qs]; reflexivity. Qed.

(** [strings.Join(strings.Split(s, sep), sep) == s]. *)
Lemma join_split : forall c s, join c (split c s) = s.
Proof.
  intros c. induction s as [|x r IH]; [reflexivity|]. cbn [split].
  destruct (split_nonempty c r) as [q [qs Eq]]. rewrite Eq in *.
  destruct (Ascii.eqb x c) eqn:Ex.
  - apply Ascii.eqb_eq in Ex. subst x.
    change (join c ([] :: q :: qs)) with ([] ++ c :: join c (q :: qs)).
    cbn [app]. f_equal. exact IH.
  - rewrite join_cons_head. f_equal. exact IH.
Qed.

Lemma forallb_bounds : forall min max l,
  forallb (fun x => (min <=? x) && (x <=? max)) l = true -> Forall (fun x => min <= x <= max) l.
Proof.
  intros min max l H. apply Forall_forall. intros x Hx. rewrite forallb_forall in H.
  specialize (H x Hx). apply andb_prop in H as [H1 H2]. apply Z.leb_le in H1, H2. lia.
Qed.

Section StepRangeBounds.

Variables end_ step : Z.
Hypothesis Hstep : 0 <= step.
Hypothesis Hwrap : end_ + step < 256.

(** Without wrap-around every value of the loop lies between its start
    and [end]. *)
Lemma stepRange_loop_bounds : forall fuel x l, 0 <= x ->
  stepRange_loop fuel x end_ step = Some l -> Forall (fun y => x <= y <= end_) l.
Proof.
  induction fuel as [|f IH]; intros x l Hx H; simpl in H; [discriminate|].
  destruct (Z.leb_spec x end_) as [Hle|Hgt]; [|inversion H; constructor].
  destruct (stepRange_loop f ((x + step) mod 256) end_ step) as [r|] eqn:Er; [|discriminate].
  inversion H; subst. constructor; [lia|].
  rewrite Z.mod_small in Er by lia.
  apply IH in Er; [|lia]. revert Er. apply Forall_impl. lia.
Qed.

End StepRangeBounds.

Lemma validRanges_fields : forall field min max, 0 <= field <= 4 ->
  validRanges field = (min, max) -> 0 <= min <= max /\ max <= 59.
Proof.
  intros field min max Hf Hv.
  assert (field = 0 \/ field = 1 \/ field = 2 \/ field = 3 \/ field = 4) as Hc by lia.
  destruct Hc as [-> | [-> | [-> | [-> | ->]]]]; vm_compute in Hv; inversion Hv; lia.
Qed.

(** The names of a field's table are numbers within its bounds. *)
Lemma lookupName_bounds : forall s field min max x, 0 <= field <= 4 ->
  validRanges field = (min, max) -> lookupName s field = Some x -> min <= x <= max.
Proof.
  intros s field min max x Hf Hv H. unfold lookupName in H.
  destruct (validNames field) as [names|] eqn:Hn; [|discriminate].
  apply lookup_In in H.
  assert (field = 0 \/ field = 1 \/ field = 2 \/ field = 3 \/ field = 4) as Hc by lia.
  destruct Hc as [-> | [-> | [-> | [-> | ->]]]]; vm_compute in Hv, Hn; inversion Hv; inversion Hn;
    subst; repeat (destruct H as [H|H]; [inversion H; subst; lia|]); destruct H.
Qed.

Lemma expandRange_end_bounds : forall start e step min max l,
  0 <= step <= 127 -> 0 <= min -> max <= 128 ->
  expandRange_end start e step min max = Ok l -> Forall (fun x => min <= x <= max) l.
Proof.
  intros start e step min max l Hst Hmin Hmax H.
  unfold expandRange_end, expandRange_checked in H.
  destruct (atoi e) as [end_|]; [|discriminate].
  destruct (start >? end_) eqn:E1; [discriminate|].
  destruct ((min >? start) || (start >? max) || ((min >? end_) || (end_ >? max))) eqn:E2;
    [discriminate|].
  rewrite !orb_false_iff, !Z.gtb_ltb, !Z.ltb_ge in E2.
  unfold of_loop, stepRange in H.
  destruct (stepRange_loop 256 start end_ step) as [r|] eqn:Es; inversion H; subst.
  apply stepRange_loop_bounds in Es; [|lia|lia|lia].
  revert Es. apply Forall_impl. lia.
Qed.

(** The piece-level switch of [expand] keeps values within the bounds. *)
Lemma expand_switch_bounds : forall p field min max l, 0 <= field <= 4 ->
  validRanges field = (min, max) -> nonnegative_step p = true ->
  expand_switch p field min max = Ok l -> Forall (fun x => min <= x <= max) l.
Proof.
  intros p field min max l Hf Hv Hp H.
  destruct (validRanges_fields _ _ _ Hf Hv) as [Hmm Hmax].
  unfold expand_switch in H.
  destruct (gostr_eqb p (str "*")).
  { assert (field = 0 \/ field = 1 \/ field = 2 \/ field = 3 \/ field = 4) as Hc by lia.
    destruct Hc as [-> | [-> | [-> | [-> | ->]]]]; vm_compute in Hv; inversion Hv; subst;
      vm_compute in H; inversion H; subst; apply forallb_bounds; vm_compute; reflexivity. }
  destruct (hasPrefix p (str "*/")) eqn:Hpre.
  { apply hasPrefix_star_slash in Hpre as [t ->].
    unfold nonnegative_step in Hp. simpl in Hp. apply negb_true_iff, contains_false_iff in Hp.
    unfold expandAnyStepRange in H. simpl skipn in H.
    destruct (atoi t) as [step|] eqn:Ha; [|discriminate].
    pose proof (atoi_unsigned _ _ Ha Hp) as Hs.
    unfold of_loop, stepRange in H.
    destruct (stepRange_loop 256 min max step) as [r|] eqn:Es; inversion H; subst.
    apply stepRange_loop_bounds in Es; [|lia|lia|lia].
    revert Es. apply Forall_impl. lia. }
  destruct (contains "-"%char p).
  { unfold expandRange in H.
    destruct (split "-"%char p) as [|p0 [|p1 [|? ?]]] eqn:Es; try discriminate.
    destruct (atoi p0) as [start|] eqn:Ha0; [|discriminate].
    destruct (contains "/"%char p1).
    - destruct (split "/"%char p1) as [|e [|st [|? ?]]] eqn:Es1; try discriminate.
      destruct (atoi st) as [step|] eqn:Hst; [|discriminate].
      apply (expandRange_end_bounds start e step); [|lia|lia|exact H].
      pose proof (join_split "-"%char p) as Ep. rewrite Es in Ep. simpl in Ep.
      pose proof (join_split "/"%char p1) as Ep1. rewrite Es1 in Ep1. simpl in Ep1.
      assert (He : ~ In "/"%char e)
        by (apply (split_pieces_no_sep _ p1); rewrite Es1; left; reflexivity).
      destruct (atoi_numeral _ _ Ha0) as [_ Hn0].
      assert (H0 : ~ In "/"%char p0)
        by (apply (forallb_not_In numeral_char); [exact Hn0 | reflexivity]).
      unfold nonnegative_step in Hp.
      rewrite <- Ep, <- Ep1, app_comm_cons, app_assoc, cut_app_sep in Hp.
      2:{ intros Hin. apply in_app_or in Hin as [Hin|[Hin|Hin]];
          [exact (H0 Hin) | discriminate | exact (He Hin)]. }
      apply negb_true_iff, contains_false_iff in Hp.
      exact (atoi_unsigned _ _ Hst Hp).
    - apply (expandRange_end_bounds start p1 1); [lia|lia|lia|exact H]. }
  unfold expandSingle in H.
  destruct (lookupName p field) as [x|] eqn:Hl.
  - inversion H; subst. constructor; [|constructor].
    exact (lookupName_bounds _ _ _ _ _ Hf Hv Hl).
  - destruct (atoi p) as [x|]; [|discriminate].
    destruct ((min >? x) || (x >? max)) eqn:E; [discriminate|].
    inversion H; subst. rewrite !orb_false_iff, !Z.gtb_ltb, !Z.ltb_ge in E.
    constructor; [lia | constructor].
Qed.

Lemma expand_parts_Forall : forall (P : Z -> Prop) ex parts ret l,
  Forall P ret -> (forall p l', In p parts -> ex p = Ok l' -> Forall P l') ->
  expand_parts ex ret parts = Ok l -> Forall P l.
Proof.
  intros P ex parts. induction parts as [|p ps IH]; intros ret l Hret Hp H; simpl in H.
  - inversion H; subst. exact Hret.
  - destruct (ex p) as [l'| |] eqn:E; try discriminate.
    apply (IH (ret ++ l')); [| |exact H].
    + apply Forall_app. split; [exact Hret|]. exact (Hp p l' (or_introl eq_refl) E).
    + intros q lq Hq. apply Hp. right. exact Hq.
Qed.

(** Every value of a successful [expand] lies within the field's bounds
    when no step is negative. *)
Lemma expand_bounds : forall s field min max l, 0 <= field <= 4 ->
  validRanges field = (min, max) -> no_negative_step s = true ->
  expand s field min max = Ok l -> Forall (fun x => min <= x <= max) l.
Proof.
  intros s field min max l Hf Hv Hn H.
  unfold no_negative_step in Hn. rewrite forallb_forall in Hn.
  rewrite expand_eq in H. cbv zeta in H.
  destruct (1 <? List.length (split ","%char s))%nat eqn:E.
  - apply (expand_parts_Forall _ (fun ss => expand ss field min max) (split ","%char s) [] l);
      [constructor| |exact H].
    intros p l' Hp Hl'.
    rewrite expand_no_comma in Hl' by exact (split_pieces_no_sep _ _ _ Hp).
    exact (expand_switch_bounds p field min max l' Hf Hv (Hn p Hp) Hl').
  - assert (Hc : ~ In ","%char s).
    { intros Hin. apply split_length_In in Hin. apply Nat.ltb_lt in Hin. congruence. }
    rewrite split_no_sep in Hn by exact Hc.
    exact (expand_switch_bounds s field min max l Hf Hv (Hn s (or_introl eq_refl)) H).
Qed.

(** A successful run of [Parse]'s loop: every field it visits expanded. *)
Lemma parse_loop_ok_inv : forall k j parts acc e,
  parse_loop k (Z.of_nat j) parts acc = PRet e None ->
  exists vs, List.length vs = k /\ e = build (acc ++ vs) parts /\
    (forall i, (i < k)%nat -> expand_field parts (j + i) = Ok (nth i vs [])).
Proof.
  induction k as [|k IH]; intros j parts acc e H.
  - simpl in H. inversion H; subst. exists []. rewrite app_nil_r.
    split; [reflexivity | split; [reflexivity | intros; lia]].
  - rewrite parse_loop_S in H.
    destruct (expand_field parts j) as [v|err|] eqn:Ev; [|discriminate|discriminate].
    destruct (IH (S j) parts (acc ++ [v]) e H) as [vs [Hlen [He Hvs]]].
    exists (v :: vs). split; [simpl; lia|]. split; [rewrite He, <- app_assoc; reflexivity|].
    intros [|i] Hi; [rewrite Nat.add_0_r; exact Ev|].
    replace (j + S i)%nat with (S j + i)%nat by lia. apply Hvs. lia.
Qed.

(** ** X3: a bare numeral is a single value, checked against the bounds.
    A field text that [atoi] accepts and that has no minus sign (digits
    with an optional '+') is never taken for a name, a range or a list: it
    expands to that one value when [min <= x <= max] and fails with
    "outside of range: min-max" otherwise. *)
Theorem X3_numeral_single_value : forall s x field min max,
  atoi s = Some x -> contains "-"%char s = false ->
  expand s field min max =
  if (min <=? x) && (x <=? max) then Ok [x] else Err (ErrOutsideRange min max).
Proof.
  intros s x field min max Ha Hm. apply contains_false_iff in Hm.
  rewrite (expand_numeral s x) by assumption.
  destruct (atoi_numeral _ _ Ha) as [Hne Hn].
  unfold expandSingle. rewrite lookupName_numeral by assumption. rewrite Ha.
  destruct (Z.leb_spec min x) as [H1|H1]; destruct (Z.leb_spec x max) as [H2|H2]; simpl.
  - replace (min >? x) with false by gtb_false. replace (x >? max) with false by gtb_false.
    reflexivity.
  - replace (x >? max) with true by gtb_true. rewrite orb_true_r. reflexivity.
  - replace (min >? x) with true by gtb_true. reflexivity.
  - replace (min >? x) with true by gtb_true. reflexivity.
Qed.

Lemma X3_numeral_single_value_witness :
  expand (str "+42") minute 0 59 = Ok [42] /\
  expand (str "042") month 1 12 = Err (ErrOutsideRange 1 12).
Proof.
  split.
  - apply (X3_numeral_single_value (str "+42") 42 minute 0 59); reflexivity.
  - apply (X3_numeral_single_value (str "042") 42 month 1 12); reflexivity.
Defined.

(** ** X4: expanded values stay within the field's bounds unless a step is
    negative.  For each of the five fields, with the bounds [validRanges]
    gives it, every value of a successful expansion lies in [min, max]
    provided no comma piece has a minus sign after its first '/'.  Names
    map into the bounds, single values and range ends are checked, and a
    step of 0..127 cannot make the uint8 counter wrap past a bound of at
    most 59. *)
Theorem X4_expand_within_bounds : forall s field min max l,
  0 <= field <= 4 -> validRanges field = (min, max) -> no_negative_step s = true ->
  expand s field min max = Ok l -> Forall (fun x => min <= x <= max) l.
Proof.
  exact expand_bounds.
Qed.

Lemma X4_expand_within_bounds_witness :
  Forall (fun x => 0 <= x <= 7) [1; 7; 5; 1; 3; 5; 7].
Proof.
  apply (X4_expand_within_bounds (str "mon,SUN,5,1-7/2") dayOfWeek 0 7).
  - vm_compute. split; discriminate.
  - vm_compute. reflexivity.
  - vm_compute. reflexivity.
  - vm_compute. reflexivity.
Defined.

(** ** X5: a successful [Parse] keeps every field within its bounds.
    When none of the five fields has a negative step, every value of the
    Expression that [Parse] returns lies within its field's bounds:
    minute 0-59, hour 0-23, day of month 1-31, month 1-12, day of week
    0-7. *)
Theorem X5_parse_within_bounds : forall s e,
  (forall i, (i < 5)%nat -> no_negative_step (nth i (splitN " "%char 6 s) []) = true) ->
  Parse s = PRet e None ->
  Forall (fun x => 0 <= x <= 59) (Minute e) /\ Forall (fun x => 0 <= x <= 23) (Hour e) /\
  Forall (fun x => 1 <= x <= 31) (DayOfMonth e) /\ Forall (fun x => 1 <= x <= 12) (Month e) /\
  Forall (fun x => 0 <= x <= 7) (DayOfWeek e).
Proof.
  intros s e Hn H. unfold Parse in H.
  destruct (negb (List.length (splitN " "%char 6 s) =? 6)%nat); [discriminate|].
  change (parse_loop 5 (Z.of_nat 0) (splitN " "%char 6 s) [] = PRet e None) in H.
  destruct (parse_loop_ok_inv _ _ _ _ _ H) as [vs [_ [He Hvs]]]. subst e.
  split; [|split; [|split; [|split]]].
  - apply (expand_bounds (nth 0 (splitN " "%char 6 s) []) 0 0 59);
      [lia | reflexivity | apply Hn; lia | exact (Hvs 0%nat ltac:(lia))].
  - apply (expand_bounds (nth 1 (splitN " "%char 6 s) []) 1 0 23);
      [lia | reflexivity | apply Hn; lia | exact (Hvs 1%nat ltac:(lia))].
  - apply (expand_bounds (nth 2 (splitN " "%char 6 s) []) 2 1 31);
      [lia | reflexivity | apply Hn; lia | exact (Hvs 2%nat ltac:(lia))].
  - apply (expand_bounds (nth 3 (splitN " "%char 6 s) []) 3 1 12);
      [lia | reflexivity | apply Hn; lia | exact (Hvs 3%nat ltac:(lia))].
  - apply (expand_bounds (nth 4 (splitN " "%char 6 s) []) 4 0 7);
      [lia | reflexivity | apply Hn; lia | exact (Hvs 4%nat ltac:(lia))].
Qed.

Lemma X5_parse_within_bounds_witness :
  Forall (fun x => 0 <= x <= 59) [0; 15; 30; 45] /\ Forall (fun x => 0 <= x <= 23) [0] /\
  Forall (fun x => 1 <= x <= 31) [1; 15] /\ Forall (fun x => 1 <= x <= 12) [1; 2; 3; 4; 5] /\
  Forall (fun x => 0 <= x <= 7) [1; 2; 3; 4; 5].
Proof.
  apply (X5_parse_within_bounds (str "*/15 0 1,15 jan,2-5 1-5 /usr/bin/find")
           (mkExpression [0; 15; 30; 45] [0] [1; 15] [1; 2; 3; 4; 5] [1; 2; 3; 4; 5]
              (str "/usr/bin/find"))).
  - intros i Hi. destruct i as [|[|[|[|[|i]]]]]; [vm_compute; reflexivity .. | lia].
  - vm_compute. reflexivity.
Defined.

(** ** [Expression.String] *)

Lemma dec_digit_is_digit : forall d, (Z.to_nat d <= 9)%nat -> is_digit (dec_digit d) = true.
Proof.
  intros d H. unfold is_digit, dec_digit. rewrite nat_ascii_embedding by lia.
  apply andb_true_intro; split; apply Nat.leb_le; lia.
Qed.

Lemma fmt_digits_digits : forall fuel x, forallb is_digit (fmt_digits fuel x) = true.
Proof.
  induction fuel as [|f IH]; intros x; cbn [fmt_digits]; [reflexivity|].
  destruct (Z.ltb_spec x 10) as [Hx|Hx].
  - cbn [forallb]. rewrite dec_digit_is_digit by lia. reflexivity.
  - rewrite forallb_app, IH. cbn [forallb]. rewrite dec_digit_is_digit; [reflexivity|].
    pose proof (Z.mod_pos_bound x 10 ltac:(lia)). lia.
Qed.

Lemma fmt_d_nonempty : forall x, fmt_d x <> [].
Proof.
  intros x. unfold fmt_d. simpl. destruct (x <? 10); [discriminate|].
  intros H. apply app_eq_nil in H as [_ H]. discriminate.
Qed.

Lemma fmt_d_no_space : forall x, ~ In " "%char (fmt_d x).
Proof.
  intros x. apply (forallb_not_In is_digit); [apply fmt_digits_digits | reflexivity].
Qed.

Lemma digits_not_special : forall cs, forallb is_digit cs = true -> existsb tw_special cs = false.
Proof.
  induction cs as [|c cs IH]; intros H; [reflexivity|].
  simpl in H. apply andb_prop in H as [Hc Hcs]. simpl. rewrite IH by exact Hcs.
  rewrite orb_false_r. unfold is_digit in Hc. apply andb_prop in Hc as [H1 H2].
  apply Nat.leb_le in H1, H2. unfold tw_special.
  repeat rewrite (proj2 (Nat.eqb_neq _ _)) by lia. reflexivity.
Qed.

Lemma join_from_plain : forall i xs, existsb tw_special (join_from i xs) = false.
Proof.
  intros i xs. revert i. induction xs as [|x xs IH]; intros i; [reflexivity|].
  simpl join_from. rewrite existsb_app, IH, orb_false_r.
  assert (Hd : existsb tw_special (fmt_d x) = false)
    by (apply digits_not_special; apply fmt_digits_digits).
  destruct (0 <? i)%nat; [exact Hd | exact Hd].
Qed.

Lemma join_from_S : forall i xs,
  join_from (S i) xs = List.concat (map (fun x => " "%char :: fmt_d x) xs).
Proof.
  intros i xs. revert i. induction xs as [|x xs IH]; intros i; [reflexivity|].
  simpl join_from. rewrite IH. reflexivity.
Qed.

Lemma join_concat : forall c p ps, join c (p :: ps) = p ++ List.concat (map (fun q => c :: q) ps).
Proof.
  intros c p ps. revert p. induction ps as [|q ps IH]; intros p.
  - rewrite app_nil_r. reflexivity.
  - change (join c (p :: q :: ps)) with (p ++ c :: join c (q :: ps)).
    rewrite IH. reflexivity.
Qed.

(** The [join] closure is [strings.Join] of the [%d] forms. *)
Lemma join_values_join : forall xs, join_values xs = join " "%char (map fmt_d xs).
Proof.
  intros [|x xs]; [reflexivity|]. unfold join_values. simpl join_from.
  rewrite join_from_S. simpl map. rewrite join_concat, map_map. reflexivity.
Qed.

Lemma atoi_fmt_d : forall x, 0 <= x <= 127 -> atoi (fmt_d x) = Some x.
Proof.
  assert (H : forallb (fun i => (fun x => match atoi (fmt_d x) with
                                         | Some v => v =? x
                                         | None => false end) (Z.of_nat i)) (seq 0 128) = true)
    by (vm_compute; reflexivity).
  intros x Hx. pose proof (forallb_seq_Z _ _ _ H x ltac:(lia)) as Hx'. cbv beta in Hx'.
  destruct (atoi (fmt_d x)) as [v|]; [apply Z.eqb_eq in Hx'; subst; reflexivity | discriminate].
Qed.

(** [String]'s table: the tabwriter pads every label to 16 columns with
    tabs. *)
Lemma Expression_String_eq : forall e,
  Expression_String e =
  if existsb tw_special (Command e) then None
  else Some (str "minute" ++ "009"%char :: "009"%char :: join_values (Minute e) ++ "010"%char ::
             str "hour" ++ "009"%char :: "009"%char :: join_values (Hour e) ++ "010"%char ::
             str "day of month" ++ "009"%char :: join_values (DayOfMonth e) ++ "010"%char ::
             str "month" ++ "009"%char :: "009"%char :: join_values (Month e) ++ "010"%char ::
             str "day of week" ++ "009"%char :: join_values (DayOfWeek e) ++ "010"%char ::
             str "command" ++ "009"%char :: "009"%char :: Command e ++ ["010"%char]).
Proof.
  intros e. unfold Expression_String, tabwriter_lines.
  replace (existsb _ _) with (existsb tw_special (Command e)).
  2:{ cbn [existsb fst snd]. unfold join_values. rewrite !join_from_plain, !orb_false_r. reflexivity. }
  destruct (existsb tw_special (Command e)); [reflexivity|].
  f_equal. cbn [List.concat map fst snd]. rewrite <- !app_assoc. reflexivity.
Qed.

(** ** [Parse] on five fields and a command, and [main] *)


(** [strings.Join(os.Args[1:], " ")] with at least one argument after the
    five fields: the command is the rest of the arguments joined. *)
Lemma join_args : forall a0 a1 a2 a3 a4 cs, cs <> [] ->
  join " "%char (a0 :: a1 :: a2 :: a3 :: a4 :: cs)
  = join " "%char [a0; a1; a2; a3; a4; join " "%char cs].
Proof.
  intros a0 a1 a2 a3 a4 [|c cs] Hne; [congruence|]. reflexivity.
Qed.

Lemma splitN_args : forall a0 a1 a2 a3 a4 p5,
  Forall (fun a => contains " "%char a = false) [a0; a1; a2; a3; a4] ->
  splitN " "%char 6 (join " "%char [a0; a1; a2; a3; a4; p5]) = [a0; a1; a2; a3; a4; p5].
Proof.
  intros a0 a1 a2 a3 a4 p5 H.
  apply (splitN_join " "%char [a0; a1; a2; a3; a4; p5]); [|discriminate].
  simpl. revert H. apply Forall_impl. intros p Hp. apply contains_false_iff. exact Hp.
Qed.

(** ** X6: the value lines of [String] read back with [atoi].
    The [join] closure of [String] writes the values' decimal forms
    separated by single spaces: splitting a non-empty line at spaces gives
    back the decimal forms, and [atoi] (the package's own parser) turns
    them back into the values when they are at most 127. *)
Theorem X6_values_line_round_trip : forall xs, xs <> [] ->
  split " "%char (join_values xs) = map fmt_d xs /\
  (Forall (fun x => 0 <= x <= 127) xs -> map atoi (split " "%char (join_values xs)) = map Some xs).
Proof.
  intros xs Hne.
  assert (Hs : split " "%char (join_values xs) = map fmt_d xs).
  { rewrite join_values_join. apply split_join.
    - destruct xs; [congruence | discriminate].
    - apply Forall_forall. intros p Hp. apply in_map_iff in Hp as [x [<- _]].
      apply fmt_d_no_space. }
  split; [exact Hs|]. intros Hb. rewrite Hs, map_map.
  apply map_ext_Forall. revert Hb. apply Forall_impl. apply atoi_fmt_d.
Qed.

Lemma X6_values_line_round_trip_witness :
  split " "%char (join_values [0; 15; 30; 45; 127]) = map fmt_d [0; 15; 30; 45; 127] /\
  map atoi (split " "%char (join_values [0; 15; 30; 45; 127])) = map Some [0; 15; 30; 45; 127].
Proof.
  destruct (X6_values_line_round_trip [0; 15; 30; 45; 127]) as [H1 H2]; [discriminate|].
  split; [exact H1|]. apply H2. repeat constructor; lia.
Defined.

(** ** X7: the table that [String] prints.
    [String] writes one line per field, label, tabs and the values
    separated by single spaces, then the command line; the tabwriter pads
    the labels to 16 columns, so "day of month" and "day of week" get one
    tab and the other labels two.  A command holding a tab, vertical tab,
    newline, form feed or byte 0xff changes the tabwriter's cells; that
    case is not modelled ([None]). *)
Theorem X7_String_table : forall e,
  Expression_String e =
  if existsb tw_special (Command e) then None
  else Some (str "minute" ++ "009"%char :: "009"%char :: join_values (Minute e) ++ "010"%char ::
             str "hour" ++ "009"%char :: "009"%char :: join_values (Hour e) ++ "010"%char ::
             str "day of month" ++ "009"%char :: join_values (DayOfMonth e) ++ "010"%char ::
             str "month" ++ "009"%char :: "009"%char :: join_values (Month e) ++ "010"%char ::
             str "day of week" ++ "009"%char :: join_values (DayOfWeek e) ++ "010"%char ::
             str "command" ++ "009"%char :: "009"%char :: Command e ++ ["010"%char]).
Proof.
  exact Expression_String_eq.
Qed.



(** ** X9: [main] reports the first failing field on stderr.
    With five space-free field arguments and at least one more argument,
    when field [i] is the first that fails to expand, [main] writes
    nothing to stdout, writes the field's index, ": ", the error's text
    and a newline to stderr, and exits with status 1. *)
Theorem X9_main_field_error : forall a0 a1 a2 a3 a4 cs i e,
  Forall (fun a => contains " "%char a = false) [a0; a1; a2; a3; a4] -> cs <> [] ->
  (i < 5)%nat ->
  (forall j, (j < i)%nat -> exists v, expand_field [a0; a1; a2; a3; a4] j = Ok v) ->
  expand_field [a0; a1; a2; a3; a4] i = Err e ->
  main (a0 :: a1 :: a2 :: a3 :: a4 :: cs)
  = MainExit [] (fmt_d (Z.of_nat i) ++ str ": " ++ Error e ++ ["010"%char]) 1.
Proof.
  intros a0 a1 a2 a3 a4 cs i e H Hne Hi Hok Herr.
  assert (Hf : forall j, (j < 5)%nat ->
            expand_field [a0; a1; a2; a3; a4; join " "%char cs] j
            = expand_field [a0; a1; a2; a3; a4] j)
    by (intros j Hj; destruct j as [|[|[|[|[|j]]]]]; [reflexivity .. | lia]).
  unfold main. rewrite join_args by exact Hne.
  unfold Parse. rewrite splitN_args by exact H.
  cbv [List.length Nat.eqb negb].
  change 0 with (Z.of_nat 0).
  rewrite (parse_loop_err i 5 0 _ _ e Hi).
  - cbn [Error]. rewrite <- !app_assoc. reflexivity.
  - intros j Hj. rewrite Nat.add_0_l, (Hf j ltac:(lia)). apply Hok. exact Hj.
  - rewrite Nat.add_0_l, (Hf i Hi). exact Herr.
Qed.

Lemma X9_main_field_error_witness :
  main [str "0"; str "0"; str "1"; str "13"; str "1"; str "/bin/test"]
  = MainExit [] (fmt_d 3 ++ str ": " ++ Error (ErrOutsideRange 1 12) ++ ["010"%char]) 1.
Proof.
  apply (X9_main_field_error (str "0") (str "0") (str "1") (str "13") (str "1")
           [str "/bin/test"] 3 (ErrOutsideRange 1 12)).
  - repeat constructor.
  - discriminate.
  - lia.
  - intros j Hj. destruct j as [|[|[|j]]]; [eexists; vm_compute; reflexivity .. | lia].
  - vm_compute. reflexivity.
Defined.

(** ** Lists, the five-field split and malformed text *)

Lemma expand_parts_app : forall ex ps ls ret rest,
  Forall2 (fun p l => ex p = Ok l) ps ls ->
  expand_parts ex ret (ps ++ rest) = expand_parts ex (ret ++ List.concat ls) rest.
Proof.
  intros ex ps ls ret rest H. revert ret.
  induction H as [|p l ps ls' Hp Hps IH]; intros ret; simpl.
  - rewrite app_nil_r. reflexivity.
  - rewrite Hp, IH, app_assoc. reflexivity.
Qed.

Lemma cut_None : forall c s, cut c s = None -> ~ In c s.
Proof.
  intros c. induction s as [|x r IH]; intros H; simpl in H; [intros []|].
  destruct (Ascii.eqb_spec x c) as [_|Hx]; [discriminate|].
  destruct (cut c r) as [[pre post]|]; [discriminate|].
  intros [E|Hin]; [exact (Hx E) | exact (IH eq_refl Hin)].
Qed.

Lemma count_occ_sep : forall c pre post, ~ In c pre ->
  count_occ ascii_dec (pre ++ c :: post) c = S (count_occ ascii_dec post c).
Proof.
  intros c pre post H. rewrite count_occ_app.
  rewrite (proj1 (count_occ_not_In ascii_dec pre c) H). simpl.
  destruct (ascii_dec c c) as [_|E]; [reflexivity | contradiction].
Qed.

(** [strings.SplitN(s, sep, n)] has [min(n, count(s, sep) + 1)] pieces. *)
Lemma splitN_length_count : forall c n s,
  List.length (splitN c (S n) s) = Nat.min (S n) (S (count_occ ascii_dec s c)).
Proof.
  intros c n. induction n as [|n IH]; intros s; [simpl; lia|].
  change (splitN c (S (S n)) s) with
    (match cut c s with None => [s] | Some (pre, post) => pre :: splitN c (S n) post end).
  destruct (cut c s) as [[pre post]|] eqn:E.
  - destruct (cut_Some _ _ _ _ E) as [-> Hpre].
    rewrite count_occ_sep by exact Hpre. cbn [List.length]. rewrite IH. lia.
  - apply cut_None in E. rewrite (proj1 (count_occ_not_In ascii_dec s c) E). simpl. lia.
Qed.

(** [strings.Split(s, sep)] has [count(s, sep) + 1] pieces. *)
Lemma split_length_count : forall c s,
  List.length (split c s) = S (count_occ ascii_dec s c).
Proof.
  intros c. induction s as [|x r IH]; [reflexivity|]. cbn [split].
  destruct (split_nonempty c r) as [q [qs Eq]]. rewrite Eq in *. simpl count_occ.
  destruct (Ascii.eqb x c) eqn:Ex.
  - apply Ascii.eqb_eq in Ex. subst x. destruct (ascii_dec c c) as [_|E]; [|contradiction].
    simpl in IH |- *. lia.
  - apply Ascii.eqb_neq in Ex. destruct (ascii_dec x c) as [E|_]; [contradiction|].
    exact IH.
Qed.


Lemma lookupName_nil : forall field, lookupName [] field = None.
Proof.
  intros field. unfold lookupName, validNames.
  destruct (field =? month); [reflexivity|]. destruct (field =? dayOfWeek); reflexivity.
Qed.

Lemma expand_nil : forall field min max, expand [] field min max = Err (ErrInvalidValue []).
Proof.
  intros field min max. rewrite expand_no_comma by (intros []).
  unfold expand_switch, expandSingle. rewrite lookupName_nil. reflexivity.
Qed.

(** ** X10: in a list the first piece that does not expand decides.
    When the pieces before [p] expand, the list's result is [p]'s error
    (or non-termination), whatever the pieces after it are: they are not
    expanded. *)
Theorem X10_list_first_failure : forall s field min max ps p qs ls r,
  contains ","%char s = true -> split ","%char s = ps ++ p :: qs ->
  Forall2 (fun q l => expand q field min max = Ok l) ps ls ->
  expand p field min max = r -> (forall l, r <> Ok l) ->
  expand s field min max = r.
Proof.
  intros s field min max ps p qs ls r Hc Hs Hps Hp Hr.
  rewrite expand_eq. cbv zeta. apply contains_In in Hc.
  replace (1 <? List.length (split ","%char s))%nat with true
    by (symmetry; apply Nat.ltb_lt; apply split_length_In; exact Hc).
  rewrite Hs, expand_parts_app with (ls := ls) by exact Hps. simpl. rewrite Hp.
  destruct r as [l| |]; [exfalso; exact (Hr l eq_refl) | reflexivity | reflexivity].
Qed.

Lemma X10_list_first_failure_witness :
  expand (str "0,61,*/0") minute 0 59 = Err (ErrOutsideRange 0 59).
Proof.
  apply (X10_list_first_failure (str "0,61,*/0") minute 0 59 [str "0"] (str "61") [str "*/0"]
           [[0]]).
  - reflexivity.
  - vm_compute. reflexivity.
  - constructor; [vm_compute; reflexivity | constructor].
  - vm_compute. reflexivity.
  - intros l. discriminate.
Defined.


(** ** X12: an empty field is an invalid value.
    The empty text expands to "invalid value: " on every field; so an
    input that starts with a space (and has four more) fails on field 0,
    as [Parse] splits at single spaces and does not trim. *)
Theorem X12_empty_field : (forall field min max,
    expand [] field min max = Err (ErrInvalidValue [])) /\
  (forall t, (4 <= count_occ ascii_dec t " "%char)%nat ->
    Parse (" "%char :: t) = PRet Expression_zero (Some (ErrField 0 (ErrInvalidValue [])))).
Proof.
  split; [exact expand_nil|]. intros t Ht.
  pose proof (splitN_length_count " "%char 4 t) as Hl.
  assert (Hs : splitN " "%char 6 (" "%char :: t) = [] :: splitN " "%char 5 t) by reflexivity.
  unfold Parse. rewrite Hs. cbn [List.length].
  replace (S (List.length (splitN " "%char 5 t)) =? 6)%nat with true
    by (symmetry; apply Nat.eqb_eq; rewrite Hl; lia).
  simpl negb. change 0 with (Z.of_nat 0).
  apply (parse_loop_err 0 5 0); [lia | intros j Hj; lia | apply expand_nil].
Qed.

Lemma X12_empty_field_witness :
  Parse (str " * * * * /bin/true") = PRet Expression_zero (Some (ErrField 0 (ErrInvalidValue []))).
Proof.
  destruct X12_empty_field as [_ H].
  apply (H (str "* * * * /bin/true")). vm_compute. lia.
Defined.

(** ** X13: malformed ranges fail as a whole.
    A field text without a comma and not of the form [*/...] that holds
    two or more '-' fails with "invalid range: " and the whole text (so a
    negative number cannot be a range end); a range [a-b] whose [b] has
    two or more '/' fails with "invalid step range: " and the whole
    text. *)
Theorem X13_malformed_range :
  (forall s field min max,
     contains ","%char s = false -> hasPrefix s (str "*/") = false ->
     (2 <= count_occ ascii_dec s "-"%char)%nat ->
     expand s field min max = Err (ErrInvalidRange s)) /\
  (forall a b x field min max,
     atoi a = Some x -> contains "-"%char a = false ->
     contains "-"%char b = false -> contains ","%char b = false ->
     (2 <= count_occ ascii_dec b "/"%char)%nat ->
     expand (a ++ "-"%char :: b) field min max = Err (ErrInvalidStepRange (a ++ "-"%char :: b))).
Proof.
  split.
  - intros s field min max Hc Hp Hm.
    rewrite expand_no_comma by (apply contains_false_iff; exact Hc).
    assert (Hin : In "-"%char s) by (apply (count_occ_In ascii_dec); lia).
    unfold expand_switch. rewrite Hp.
    replace (gostr_eqb s (str "*")) with false.
    2:{ unfold gostr_eqb. destruct (list_eq_dec _ _ _) as [->|_]; [|reflexivity].
        simpl in Hm. lia. }
    replace (contains "-"%char s) with true by (symmetry; apply contains_In; exact Hin).
    unfold expandRange. pose proof (split_length_count "-"%char s) as Hl.
    destruct (split "-"%char s) as [|p0 [|p1 [|p2 ps]]]; cbn [List.length] in Hl;
      [lia | lia | lia | reflexivity].
  - intros a b x field min max Ha Ham Hbm Hbc Hs.
    apply contains_false_iff in Ham, Hbm, Hbc.
    destruct (atoi_numeral _ _ Ha) as [Hne Hn].
    assert (Hac : ~ In ","%char a)
      by (apply (forallb_not_In numeral_char); [exact Hn | reflexivity]).
    rewrite expand_no_comma
      by (intros Hin; apply in_app_or in Hin as [Hin|[Hin|Hin]];
          [exact (Hac Hin) | discriminate | exact (Hbc Hin)]).
    unfold expand_switch.
    destruct a as [|c a']; [contradiction|].
    assert (Hc : c <> "*"%char).
    { apply (bool_pred_neq numeral_char); [|reflexivity].
      simpl in Hn. apply andb_prop in Hn. tauto. }
    replace (gostr_eqb ((c :: a') ++ "-"%char :: b) (str "*")) with false.
    2:{ unfold gostr_eqb. destruct (list_eq_dec _ _ _) as [E|E]; [|reflexivity].
        simpl in E. inversion E. contradiction. }
    replace (hasPrefix ((c :: a') ++ "-"%char :: b) (str "*/")) with false.
    2:{ simpl. destruct (Ascii.eqb_spec c "*"%char); [contradiction | reflexivity]. }
    replace (contains "-"%char ((c :: a') ++ "-"%char :: b)) with true.
    2:{ symmetry. apply contains_In. apply in_or_app. right. left. reflexivity. }
    unfold expandRange.
    rewrite split_app_sep by exact Ham. rewrite (split_no_sep "-"%char b) by exact Hbm.
    rewrite Ha.
    replace (contains "/"%char b) with true
      by (symmetry; apply contains_In; apply (count_occ_In ascii_dec); lia).
    pose proof (split_length_count "/"%char b) as Hl.
    destruct (split "/"%char b) as [|q0 [|q1 [|q2 qs]]]; cbn [List.length] in Hl;
      [lia | lia | lia | reflexivity].
Qed.

Lemma X13_malformed_range_witness :
  expand (str "1--5") minute 0 59 = Err (ErrInvalidRange (str "1--5")) /\
  expand (str "1-5/2/3") minute 0 59 = Err (ErrInvalidStepRange (str "1-5/2/3")).
Proof.
  destruct X13_malformed_range as [H1 H2]. split.
  - apply H1; [reflexivity | reflexivity | vm_compute; lia].
  - apply (H2 (str "1") (str "5/2/3") 1); [vm_compute; reflexivity | reflexivity ..
                                          | vm_compute; lia].
Defined.
